(** * Modal focus trap and pixel chart renderer of the portfolio site

  A shallow embedding of [js/charts.js], [js/modal.js] and two helpers
  of [js/utils.js].

  - JavaScript numbers are IEEE 754 binary64 values: the standard
    library's [spec_float] at precision 53 and maximal exponent 1024,
    with the operations of [SpecFloat] (round to nearest, ties to even).
  - Canvas drawing is a log of the calls made on the 2D context.
  - The modal module's five [let] variables and the part of the document
    they touch form an explicit state that every function threads.
  - [el.focus()] moves the focus only to an element that can take it:
    a focusable area that is not a disabled control and is rendered. *)

From Stdlib Require Import ZArith List Bool String Lia.
From Stdlib Require Import Floats.SpecFloat.
From stdpp Require Import gmap strings.
Import ListNotations.

Local Open Scope Z_scope.

(* ===================================================================== *)
(** ** JavaScript numbers *)
(* ===================================================================== *)

Module Num.

Definition number := spec_float.

Definition prec : Z := 53.
Definition emax : Z := 1024.

Definition NaN : number := S754_nan.
Definition pos_zero : number := S754_zero false.
Definition neg_zero : number := S754_zero true.
Definition pos_infinity : number := S754_infinity false.
Definition neg_infinity : number := S754_infinity true.

Definition add : number -> number -> number := SFadd prec emax.
Definition sub : number -> number -> number := SFsub prec emax.
Definition mul : number -> number -> number := SFmul prec emax.
Definition div : number -> number -> number := SFdiv prec emax.

(** An integer literal, an array length or an index as a number. *)
Definition of_Z (z : Z) : number := binary_normalize prec emax z 0 false.
Definition of_nat (n : nat) : number := of_Z (Z.of_nat n).

(** The literal [0.2]: the double nearest to one fifth. *)
Definition lit_0_2 : number := S754_finite false 7205759403792794 (-55).

Definition isNaN (x : number) : bool :=
  match x with S754_nan => true | _ => false end.

(** [Number.isFinite]. *)
Definition isFinite (x : number) : bool :=
  match x with
  | S754_zero _ | S754_finite _ _ _ => true
  | S754_infinity _ | S754_nan => false
  end.

Definition isZero (x : number) : bool :=
  match x with S754_zero _ => true | _ => false end.

Definition is_pos_zero (x : number) : bool :=
  match x with S754_zero false => true | _ => false end.

Definition is_neg_zero (x : number) : bool :=
  match x with S754_zero true => true | _ => false end.

(** [x === y], [x < y] and [x <= y] on numbers. *)
Definition strict_eq : number -> number -> bool := SFeqb.
Definition lt : number -> number -> bool := SFltb.
Definition le : number -> number -> bool := SFleb.

(** [ToBoolean]: zero of either sign and NaN are falsy. *)
Definition ToBoolean (x : number) : bool :=
  match x with
  | S754_zero _ | S754_nan => false
  | _ => true
  end.

(** [a || b] on numbers. *)
Definition or_else (a b : number) : number :=
  if ToBoolean a then a else b.

(** [Math.max(...l)]: starts from -Infinity, NaN is contagious and
    +0 counts as larger than -0. *)
Fixpoint max_loop (highest : number) (l : list number) : number :=
  match l with
  | [] => highest
  | n :: rest =>
      if isNaN n then NaN
      else
        let highest1 :=
          if is_pos_zero n && is_neg_zero highest then pos_zero else highest in
        let highest2 := if lt highest1 n then n else highest1 in
        max_loop highest2 rest
  end.

Definition Math_max (l : list number) : number := max_loop neg_infinity l.

(** [Math.min(...l)]: starts from +Infinity, -0 counts as smaller
    than +0. *)
Fixpoint min_loop (lowest : number) (l : list number) : number :=
  match l with
  | [] => lowest
  | n :: rest =>
      if isNaN n then NaN
      else
        let lowest1 :=
          if is_neg_zero n && is_pos_zero lowest then neg_zero else lowest in
        let lowest2 := if lt n lowest1 then n else lowest1 in
        min_loop lowest2 rest
  end.

Definition Math_min (l : list number) : number := min_loop pos_infinity l.

(** [Math.floor]: the largest integer not above [x]; NaN, the
    infinities and the zeros are returned as they are. *)
Definition Math_floor (x : number) : number :=
  match x with
  | S754_finite s m e =>
      if 0 <=? e then x
      else
        match Z.shiftr (cond_Zopp s (Zpos m)) (- e) with
        | Z0 => S754_zero s
        | z => binary_normalize prec emax z 0 false
        end
  | _ => x
  end.

(** Lists without NaN, and lists of finite numbers. *)
Definition no_NaN (l : list number) : Prop :=
  Forall (fun v => isNaN v = false) l.

Definition all_finite (l : list number) : Prop :=
  Forall (fun v => isFinite v = true) l.

End Num.

Import Num.

Declare Scope js_scope.
Delimit Scope js_scope with js.
Infix "+" := add : js_scope.
Infix "-" := sub : js_scope.
Infix "*" := mul : js_scope.
Infix "/" := div : js_scope.

(* ===================================================================== *)
(** ** Canvas and the chart renderer ([js/charts.js]) *)
(* ===================================================================== *)

Module Charts.

Local Open Scope js_scope.

(** The literal [0.3] (the shadow strip's alpha). *)
Definition lit_0_3 : number := S754_finite false 5404319552844595 (-54).

(** Text handed to [fillText]: a label, or [value.toString()]. *)
Inductive text :=
| Label (s : string)
| NumberToString (v : number).

(** One call or property assignment on the canvas or its 2D context. *)
Inductive DrawCmd :=
| SetCanvasWidth (w : number)
| SetCanvasHeight (h : number)
| Scale (sx sy : number)
| ClearRect (x y w h : number)
| SetImageSmoothingEnabled (b : bool)
| SetFillStyle (c : string)
| SetStrokeStyle (c : string)
| SetLineWidth (w : number)
| SetGlobalAlpha (a : number)
| SetFont (f : string)
| SetTextAlign (a : string)
| FillRect (x y w h : number)
| StrokeRect (x y w h : number)
| FillText (t : text) (x y : number)
| BeginPath
| MoveTo (x y : number)
| LineTo (x y : number)
| Stroke.

Record DOMRect := { rect_width : number; rect_height : number }.

(** A canvas element: whether [getContext('2d')] yields a context, its
    layout box and its [width] and [height] attributes. *)
Record Canvas := {
  has_context2d : bool;
  boundingClientRect : DOMRect;
  canvas_width : number;
  canvas_height : number
}.

(** What the renderer reads from [window] and the root's computed style. *)
Record Window := {
  devicePixelRatio : option number;
  color_sage_base : string;
  color_sage_dark : string;
  color_text_muted : string
}.

Record DataPoint := { label : string; value : number }.

(** How a call ends: it returns, having made the logged calls, or the
    property access on a null canvas throws. *)
Inductive completion :=
| Returned (log : list DrawCmd)
| TypeError.

(** [array.forEach((item, index) => ...)] collecting the drawing calls. *)
Fixpoint forEach_from {A : Type} (f : A -> nat -> list DrawCmd)
    (index : nat) (l : list A) : list DrawCmd :=
  match l with
  | [] => []
  | item :: rest => (f item index ++ forEach_from f (S index) rest)%list
  end.

Definition forEach {A : Type} (f : A -> nat -> list DrawCmd) (l : list A)
  : list DrawCmd := forEach_from f 0 l.

Definition drawPixelBar (x y width height : number)
    (fillColor borderColor : string) : list DrawCmd :=
  [ SetFillStyle fillColor;
    FillRect (Math_floor x) (Math_floor y) (Math_floor width) (Math_floor height);
    SetStrokeStyle borderColor;
    SetLineWidth (of_Z 2);
    StrokeRect (Math_floor x) (Math_floor y) (Math_floor width) (Math_floor height);
    SetFillStyle borderColor;
    SetGlobalAlpha lit_0_3;
    FillRect (Math_floor (x + of_Z 2)) (Math_floor (y + height))
             (Math_floor (width - of_Z 2)) (of_Z 2);
    SetGlobalAlpha (of_Z 1) ].

Definition drawPixelGrid (x y width height : number) (divisions : nat)
  : list DrawCmd :=
  ([ SetStrokeStyle "rgba(122, 173, 125, 0.2)"; SetLineWidth (of_Z 1) ] ++
   flat_map (fun i =>
     let yPos := y + (height / of_nat divisions) * of_nat i in
     [ BeginPath;
       MoveTo x (Math_floor yPos);
       LineTo (x + width) (Math_floor yPos);
       Stroke ])
     (seq 0 (S divisions)))%list.

Definition drawPixelAxes (x y width height : number) (color : string)
  : list DrawCmd :=
  [ SetStrokeStyle color; SetLineWidth (of_Z 2);
    BeginPath; MoveTo x y; LineTo x (y + height); Stroke;
    BeginPath; MoveTo x (y + height); LineTo (x + width) (y + height); Stroke ].

(** The quantities [renderPixelBarChart] computes before its loop. *)
Record Layout := {
  lay_width : number;
  lay_height : number;
  padding : number;
  chartWidth : number;
  chartHeight : number;
  maxValue : number;
  barWidth : number;
  barPadding : number;
  actualBarWidth : number
}.

Definition layout (rect : DOMRect) (data : list DataPoint) : Layout :=
  let width := rect_width rect in
  let height := rect_height rect in
  let padding := of_Z 40 in
  let chartWidth := width - padding * of_Z 2 in
  let chartHeight := height - padding * of_Z 2 in
  let maxValue := Math_max (map value data) in
  let barWidth := chartWidth / of_nat (length data) in
  let barPadding := barWidth * lit_0_2 in
  let actualBarWidth := barWidth - barPadding in
  {| lay_width := width; lay_height := height; padding := padding;
     chartWidth := chartWidth; chartHeight := chartHeight;
     maxValue := maxValue; barWidth := barWidth;
     barPadding := barPadding; actualBarWidth := actualBarWidth |}.

(** The rectangle the loop body hands to [drawPixelBar]. *)
Record Bar := { bar_x : number; bar_y : number;
                bar_width : number; bar_height : number }.

Definition bar (L : Layout) (item : DataPoint) (index : nat) : Bar :=
  let barHeight := (value item / maxValue L) * chartHeight L in
  let x := padding L + of_nat index * barWidth L + barPadding L / of_Z 2 in
  let y := padding L + chartHeight L - barHeight in
  {| bar_x := x; bar_y := y;
     bar_width := actualBarWidth L; bar_height := barHeight |}.

(** What the callback draws once the rectangle [b] is computed: the
    bar, the label under it and the value over it. *)
Definition drawBarAndTexts (win : Window) (L : Layout)
    (item : DataPoint) (b : Bar) : list DrawCmd :=
  (drawPixelBar (bar_x b) (bar_y b) (bar_width b) (bar_height b)
     (color_sage_base win) (color_sage_dark win) ++
   [ SetFillStyle (color_text_muted win);
     SetFont "10px monospace";
     SetTextAlign "center";
     FillText (Label (label item))
       (bar_x b + bar_width b / of_Z 2) (lay_height L - padding L + of_Z 20);
     SetFillStyle (color_sage_dark win);
     SetFont "bold 12px monospace";
     FillText (NumberToString (value item))
       (bar_x b + bar_width b / of_Z 2) (bar_y b - of_Z 5) ])%list.

(** The body of the [data.forEach] callback. *)
Definition drawItem (win : Window) (L : Layout)
    (item : DataPoint) (index : nat) : list DrawCmd :=
  drawBarAndTexts win L item (bar L item index).

Definition renderPixelBarChart (win : Window) (canvas : option Canvas)
    (data : list DataPoint) : completion :=
  match canvas with
  | None => TypeError
  | Some c =>
      if negb (has_context2d c) then Returned []
      else
        let rect := boundingClientRect c in
        let dpr :=
          match devicePixelRatio win with
          | Some r => or_else r (of_Z 1)
          | None => of_Z 1
          end in
        let L := layout rect data in
        Returned
          ([ SetCanvasWidth (rect_width rect * dpr);
             SetCanvasHeight (rect_height rect * dpr);
             Scale dpr dpr;
             ClearRect (of_Z 0) (of_Z 0) (lay_width L) (lay_height L);
             SetImageSmoothingEnabled false ] ++
           forEach (drawItem win L) data ++
           drawPixelGrid (padding L) (padding L) (chartWidth L) (chartHeight L) 4 ++
           drawPixelAxes (padding L) (padding L) (chartWidth L) (chartHeight L)
             (color_text_muted win))%list
  end.

(** The bars of a chart, in drawing order. *)
Fixpoint bars_from (L : Layout) (index : nat) (data : list DataPoint)
  : list Bar :=
  match data with
  | [] => []
  | item :: rest => bar L item index :: bars_from L (S index) rest
  end.

Definition bars (rect : DOMRect) (data : list DataPoint) : list Bar :=
  bars_from (layout rect data) 0 data.

(** *** Sparkline *)

Record SparkLayout := {
  sp_width : number;
  sp_height : number;
  sp_padding : number;
  sp_minValue : number;
  sp_range : number;
  stepX : number
}.

Definition sparkLayout (c : Canvas) (values : list number) : SparkLayout :=
  let width := canvas_width c in
  let height := canvas_height c in
  let padding := of_Z 4 in
  let maxValue := Math_max values in
  let minValue := Math_min values in
  let range := or_else (maxValue - minValue) (of_Z 1) in
  let stepX := (width - padding * of_Z 2) / (of_nat (length values) - of_Z 1) in
  {| sp_width := width; sp_height := height; sp_padding := padding;
     sp_minValue := minValue; sp_range := range; stepX := stepX |}.

(** The share of the vertical extent a value takes. *)
Definition fraction (sl : SparkLayout) (v : number) : number :=
  (v - sp_minValue sl) / sp_range sl.

Definition point_x (sl : SparkLayout) (index : nat) : number :=
  sp_padding sl + of_nat index * stepX sl.

Definition point_y (sl : SparkLayout) (v : number) : number :=
  sp_height sl - sp_padding sl
    - fraction sl v * (sp_height sl - sp_padding sl * of_Z 2).

Definition renderSparkline (canvas : option Canvas) (values : list number)
    (color : option string) : completion :=
  let color := match color with Some c => c | None => "#7dad7d"%string end in
  match canvas with
  | None => TypeError
  | Some c =>
      if negb (has_context2d c) then Returned []
      else
        let sl := sparkLayout c values in
        Returned
          ([ ClearRect (of_Z 0) (of_Z 0) (sp_width sl) (sp_height sl);
             SetImageSmoothingEnabled false;
             SetStrokeStyle color;
             SetLineWidth (of_Z 2);
             BeginPath ] ++
           forEach (fun v index =>
                      let x := point_x sl index in
                      let y := point_y sl v in
                      if Nat.eqb index 0 then [MoveTo x y] else [LineTo x y])
                   values ++
           [ Stroke; SetFillStyle color ] ++
           forEach (fun v index =>
                      let x := point_x sl index in
                      let y := point_y sl v in
                      [FillRect (x - of_Z 2) (y - of_Z 2) (of_Z 4) (of_Z 4)])
                   values)%list
  end.

(** The points of a sparkline, in drawing order. *)
Fixpoint points_from (sl : SparkLayout) (index : nat) (values : list number)
  : list (number * number) :=
  match values with
  | [] => []
  | v :: rest => (point_x sl index, point_y sl v) :: points_from sl (S index) rest
  end.

Definition points (c : Canvas) (values : list number)
  : list (number * number) :=
  points_from (sparkLayout c values) 0 values.

(** [initChart]: looks the canvas up and renders only when it exists.
    [data] stands for the sample generated with [Math.random]. *)
Definition initChart (win : Window) (canvas : option Canvas)
    (data : list DataPoint) : completion :=
  match canvas with
  | None => Returned []
  | Some c => renderPixelBarChart win (Some c) data
  end.

(** The y of a point whose share of the vertical extent is +0. *)
Definition baseline_y (c : Canvas) : number :=
  canvas_height c - of_Z 4 - pos_zero * (canvas_height c - of_Z 4 * of_Z 2).

(** *** Sample inputs *)

(** A 400 x 200 canvas with a 2D context, a 100 x 30 one for sparklines,
    and a window with the site's colours. *)
Definition sample_rect : DOMRect :=
  {| rect_width := of_Z 400; rect_height := of_Z 200 |}.

Definition sample_canvas : Canvas :=
  {| has_context2d := true; boundingClientRect := sample_rect;
     canvas_width := of_Z 100; canvas_height := of_Z 30 |}.

Definition no_context_canvas : Canvas :=
  {| has_context2d := false; boundingClientRect := sample_rect;
     canvas_width := of_Z 100; canvas_height := of_Z 30 |}.

Definition sample_window : Window :=
  {| devicePixelRatio := Some (of_Z 2);
     color_sage_base := "#7dad7d"; color_sage_dark := "#5a8a5a";
     color_text_muted := "#888888" |}.

Definition jan_feb : list DataPoint :=
  [ {| label := "Jan"; value := of_Z 0 |};
    {| label := "Feb"; value := of_Z 100 |} ].

Definition all_zero_data : list DataPoint :=
  [ {| label := "Jan"; value := of_Z 0 |};
    {| label := "Feb"; value := of_Z 0 |} ].

End Charts.


(* ===================================================================== *)
(** ** The page and the modal module ([js/modal.js]) *)
(* ===================================================================== *)

Module Modal.

(** An element, by identity. *)
Definition Elem := positive.

(** What a module variable filled from an array index can hold. *)
Inductive ref :=
| Null
| Undefined
| Ref (e : Elem).

(** [a === r] for [a] an element or null. *)
Definition same_ref (a : option Elem) (r : ref) : bool :=
  match a, r with
  | Some x, Ref y => Pos.eqb x y
  | None, Null => true
  | _, _ => false
  end.

(** What the selectors of [getFocusableElements] look at. *)
Record ElemInfo := {
  localName : string;
  classList : list string;
  has_href : bool;
  disabled : bool;
  tabindex : option string;
  offsetParent_null : bool
}.

(** The elements below each element in document order, their markup
    and layout while the modal is shown, and the elements the user agent
    counts as focusable areas when they are enabled and rendered: that
    is a matter of the element's kind, of its [tabindex] as the user
    agent reads it and of its style. *)
Record Page := {
  descendants : Elem -> list Elem;
  info : Elem -> ElemInfo;
  focusable_area : Elem -> bool
}.

(** The module's variables and the part of the document it writes. *)
Record State := {
  currentModal : option Elem;
  focusableElements : list Elem;
  firstFocusable : ref;
  lastFocusable : ref;
  previousFocus : option Elem;
  activeElement : option Elem;
  body_overflow : string;
  attributes : gmap (Elem * string) string
}.

Record KeyboardEvent := {
  key : string;
  shiftKey : bool;
  defaultPrevented : bool
}.

(** A handler returns, or a call on null or undefined throws. *)
Inductive outcome (A : Type) :=
| Done (a : A)
| Throws.
Arguments Done {A} a.
Arguments Throws {A}.

(** *** Assignments to the module's variables *)

Definition set_currentModal (v : option Elem) (s : State) : State :=
  {| currentModal := v;
     focusableElements := focusableElements s;
     firstFocusable := firstFocusable s;
     lastFocusable := lastFocusable s;
     previousFocus := previousFocus s;
     activeElement := activeElement s;
     body_overflow := body_overflow s;
     attributes := attributes s |}.

Definition set_focusableElements (v : list Elem) (s : State) : State :=
  {| currentModal := currentModal s;
     focusableElements := v;
     firstFocusable := firstFocusable s;
     lastFocusable := lastFocusable s;
     previousFocus := previousFocus s;
     activeElement := activeElement s;
     body_overflow := body_overflow s;
     attributes := attributes s |}.

Definition set_firstFocusable (v : ref) (s : State) : State :=
  {| currentModal := currentModal s;
     focusableElements := focusableElements s;
     firstFocusable := v;
     lastFocusable := lastFocusable s;
     previousFocus := previousFocus s;
     activeElement := activeElement s;
     body_overflow := body_overflow s;
     attributes := attributes s |}.

Definition set_lastFocusable (v : ref) (s : State) : State :=
  {| currentModal := currentModal s;
     focusableElements := focusableElements s;
     firstFocusable := firstFocusable s;
     lastFocusable := v;
     previousFocus := previousFocus s;
     activeElement := activeElement s;
     body_overflow := body_overflow s;
     attributes := attributes s |}.

Definition set_previousFocus (v : option Elem) (s : State) : State :=
  {| currentModal := currentModal s;
     focusableElements := focusableElements s;
     firstFocusable := firstFocusable s;
     lastFocusable := lastFocusable s;
     previousFocus := v;
     activeElement := activeElement s;
     body_overflow := body_overflow s;
     attributes := attributes s |}.

(** *** Document operations *)

Definition setAttribute (el : Elem) (name value : string) (s : State) : State :=
  {| currentModal := currentModal s;
     focusableElements := focusableElements s;
     firstFocusable := firstFocusable s;
     lastFocusable := lastFocusable s;
     previousFocus := previousFocus s;
     activeElement := activeElement s;
     body_overflow := body_overflow s;
     attributes := <[(el, name) := value]> (attributes s) |}.

Definition removeAttribute (el : Elem) (name : string) (s : State) : State :=
  {| currentModal := currentModal s;
     focusableElements := focusableElements s;
     firstFocusable := firstFocusable s;
     lastFocusable := lastFocusable s;
     previousFocus := previousFocus s;
     activeElement := activeElement s;
     body_overflow := body_overflow s;
     attributes := delete (el, name) (attributes s) |}.

(** [el.hasAttribute(name)]. *)
Definition hasAttribute (el : Elem) (name : string) (s : State) : bool :=
  match attributes s !! (el, name) with
  | Some _ => true
  | None => false
  end.

(** A form control with the [disabled] attribute is disabled; on other
    elements the attribute means nothing. *)
Definition actually_disabled (i : ElemInfo) : bool :=
  disabled i
  && existsb (String.eqb (localName i)) ["button"; "input"; "select"; "textarea"].

(** An element is not rendered while it, or an element above it, carries
    the [hidden] attribute (the user agent's style sheet gives such an
    element no box). *)
Definition under_hidden (page : Page) (s : State) (el : Elem) : bool :=
  existsb (fun entry =>
             match entry with
             | ((above, name), _) =>
                 String.eqb name "hidden"
                 && (Pos.eqb above el
                     || existsb (Pos.eqb el) (descendants page above))
             end)
          (map_to_list (attributes s)).

(** Whether [el.focus()] takes effect now: the element is a focusable
    area, it is not a disabled control and it is rendered. *)
Definition takes_focus (page : Page) (s : State) (el : Elem) : bool :=
  focusable_area page el
  && negb (actually_disabled (info page el))
  && negb (under_hidden page s el).

(** The focus moves: [document.activeElement] is another element. *)
Definition set_activeElement (v : option Elem) (s : State) : State :=
  {| currentModal := currentModal s;
     focusableElements := focusableElements s;
     firstFocusable := firstFocusable s;
     lastFocusable := lastFocusable s;
     previousFocus := previousFocus s;
     activeElement := v;
     body_overflow := body_overflow s;
     attributes := attributes s |}.

(** [el.focus()]: the element takes the focus, or the call does nothing
    when the element cannot take it. *)
Definition focus (page : Page) (el : Elem) (s : State) : State :=
  if takes_focus page s el then set_activeElement (Some el) s else s.

(** [document.body.style.overflow = v]. *)
Definition set_body_overflow (v : string) (s : State) : State :=
  {| currentModal := currentModal s;
     focusableElements := focusableElements s;
     firstFocusable := firstFocusable s;
     lastFocusable := lastFocusable s;
     previousFocus := previousFocus s;
     activeElement := activeElement s;
     body_overflow := v;
     attributes := attributes s |}.

Definition preventDefault (e : KeyboardEvent) : KeyboardEvent :=
  {| key := key e; shiftKey := shiftKey e; defaultPrevented := true |}.

(** [modal.querySelector('.modal-close')]. *)
Definition querySelector_modal_close (page : Page) (modal : Elem)
  : option Elem :=
  head (List.filter (fun el => existsb (String.eqb "modal-close")
                                  (classList (info page el)))
               (descendants page modal)).

(** The six selectors joined in [getFocusableElements]. *)
Definition matches_focusable (i : ElemInfo) : bool :=
  (String.eqb (localName i) "a" && has_href i)
  || (String.eqb (localName i) "button" && negb (disabled i))
  || (String.eqb (localName i) "textarea" && negb (disabled i))
  || (String.eqb (localName i) "input" && negb (disabled i))
  || (String.eqb (localName i) "select" && negb (disabled i))
  || match tabindex i with
     | Some t => negb (String.eqb t "-1")
     | None => false
     end.

Definition getFocusableElements (page : Page) (container : Elem)
  : list Elem :=
  List.filter (fun el => negb (offsetParent_null (info page el)))
    (List.filter (fun el => matches_focusable (info page el))
            (descendants page container)).

(** [array[0]] and [array[array.length - 1]]. *)
Definition first_of (l : list Elem) : ref :=
  match l with
  | [] => Undefined
  | x :: _ => Ref x
  end.

Definition last_of (l : list Elem) : ref :=
  match l with
  | [] => Undefined
  | _ =>
      match nth_error l (length l - 1) with
      | Some x => Ref x
      | None => Undefined
      end
  end.

(** *** The module's functions *)

Definition openModal (page : Page) (modal : option Elem) (s : State) : State :=
  match modal with
  | None => s
  | Some m =>
      let s := set_previousFocus (activeElement s) s in
      let s := removeAttribute m "hidden" s in
      let s := set_currentModal (Some m) s in
      let s := set_body_overflow "hidden" s in
      let s := set_focusableElements (getFocusableElements page m) s in
      let s := set_firstFocusable (first_of (focusableElements s)) s in
      let s := set_lastFocusable (last_of (focusableElements s)) s in
      let s :=
        match querySelector_modal_close page m with
        | Some closeBtn => focus page closeBtn s
        | None =>
            match firstFocusable s with
            | Ref first => focus page first s
            | _ => s
            end
        end in
      setAttribute m "aria-hidden" "false" s
  end.

Definition closeModal (page : Page) (modal : option Elem) (s : State)
  : State :=
  match modal with
  | None => s
  | Some m =>
      let s := setAttribute m "hidden" "" s in
      let s := setAttribute m "aria-hidden" "true" s in
      let s := set_body_overflow "" s in
      let s :=
        match previousFocus s with
        | Some p => set_previousFocus None (focus page p s)
        | None => s
        end in
      let s := set_currentModal None s in
      let s := set_focusableElements [] s in
      let s := set_firstFocusable Null s in
      set_lastFocusable Null s
  end.

(** The state in which [openModal] calls [focus]. *)
Definition prepared (page : Page) (m : Elem) (s : State) : State :=
  set_lastFocusable (last_of (getFocusableElements page m))
    (set_firstFocusable (first_of (getFocusableElements page m))
       (set_focusableElements (getFocusableElements page m)
          (set_body_overflow "hidden"
             (set_currentModal (Some m)
                (removeAttribute m "hidden"
                   (set_previousFocus (activeElement s) s)))))).

(** The element [openModal] calls [focus] on, if any. *)
Definition focus_target (page : Page) (m : Elem) : option Elem :=
  match querySelector_modal_close page m with
  | Some closeBtn => Some closeBtn
  | None =>
      match getFocusableElements page m with
      | first :: _ => Some first
      | [] => None
      end
  end.

(** The state in which [closeModal] calls [focus]. *)
Definition hidden_again (m : Elem) (s : State) : State :=
  set_body_overflow ""
    (setAttribute m "aria-hidden" "true" (setAttribute m "hidden" "" s)).

(** [r.focus()] for a variable that may hold null or undefined. *)
Definition focus_ref (page : Page) (r : ref) (s : State) : outcome State :=
  match r with
  | Ref el => Done (focus page el s)
  | _ => Throws
  end.

Definition handleTabKey (page : Page) (e : KeyboardEvent) (s : State)
  : outcome (State * KeyboardEvent) :=
  match focusableElements s with
  | [] => Done (s, e)
  | _ =>
      if shiftKey e then
        if same_ref (activeElement s) (firstFocusable s) then
          match focus_ref page (lastFocusable s) s with
          | Done s' => Done (s', preventDefault e)
          | Throws => Throws
          end
        else Done (s, e)
      else
        if same_ref (activeElement s) (lastFocusable s) then
          match focus_ref page (firstFocusable s) s with
          | Done s' => Done (s', preventDefault e)
          | Throws => Throws
          end
        else Done (s, e)
  end.

Definition handleModalKeydown (page : Page) (e : KeyboardEvent) (s : State)
  : outcome (State * KeyboardEvent) :=
  match currentModal s with
  | None => Done (s, e)
  | Some m =>
      if String.eqb (key e) "Escape" || String.eqb (key e) "Esc" then
        Done (closeModal page (currentModal s) s, preventDefault e)
      else if String.eqb (key e) "Tab" then handleTabKey page e s
      else Done (s, e)
  end.

(** The body of the loop in the callback of [observeModalState], for
    the record of one changed attribute of [modal]. *)
Definition on_mutation (modal : Elem) (attributeName : string) (s : State)
  : State :=
  if String.eqb attributeName "hidden" then
    if hasAttribute modal "hidden" s then set_body_overflow "" s
    else set_body_overflow "hidden" s
  else s.

(** The callback: [mutations.forEach(...)]. *)
Definition observer_callback (modal : Elem) (mutations : list string)
    (s : State) : State :=
  fold_left (fun s' attributeName => on_mutation modal attributeName s')
            mutations s.

(** The focus trap's boundaries are the ends of the cached list. *)
Definition boundaries_ok (s : State) : Prop :=
  focusableElements s <> [] ->
  firstFocusable s = first_of (focusableElements s) /\
  lastFocusable s = last_of (focusableElements s).

(** What can happen to the state: the module's functions are called, a
    key press is handled, the browser moves the focus to an element that
    takes it, or the browser runs the callback of an observer. When the
    callback runs and with which records is the browser's business, so
    every delivery is a step. *)
Inductive step (page : Page) : State -> State -> Prop :=
| step_open (m : Elem) (s : State) :
    step page s (openModal page (Some m) s)
| step_close (m : Elem) (s : State) :
    step page s (closeModal page (Some m) s)
| step_keydown (e e' : KeyboardEvent) (s s' : State) :
    handleModalKeydown page e s = Done (s', e') -> step page s s'
| step_focus (el : Elem) (s : State) :
    step page s (focus page el s)
| step_observe (modal : Elem) (mutations : list string) (s : State) :
    step page s (observer_callback modal mutations s).

Inductive reachable (page : Page) : State -> Prop :=
| reach_start (s : State) :
    focusableElements s = [] -> reachable page s
| reach_step (s s' : State) :
    reachable page s -> step page s s' -> reachable page s'.

(** *** A sample page *)

(** A page with one dialog (element 1) holding a close button (2), a
    link (3), a disabled input (4) and a hidden button (5); a second
    dialog (7) holds only a paragraph (8); element 6 is the button that
    opens the first dialog. The buttons, the link and the input are
    focusable areas, the button without a box is not. *)
Definition plain (tag : string) : ElemInfo :=
  {| localName := tag; classList := []; has_href := false; disabled := false;
     tabindex := None; offsetParent_null := false |}.

Definition sample_info (el : Elem) : ElemInfo :=
  match el with
  | 2%positive =>
      {| localName := "button"; classList := ["modal-close"; "px-btn-small"];
         has_href := false; disabled := false; tabindex := None;
         offsetParent_null := false |}
  | 3%positive =>
      {| localName := "a"; classList := []; has_href := true;
         disabled := false; tabindex := None; offsetParent_null := false |}
  | 4%positive =>
      {| localName := "input"; classList := []; has_href := false;
         disabled := true; tabindex := None; offsetParent_null := false |}
  | 5%positive =>
      {| localName := "button"; classList := []; has_href := false;
         disabled := false; tabindex := None; offsetParent_null := true |}
  | 6%positive => plain "button"
  | 8%positive => plain "p"
  | _ => plain "div"
  end.

Definition sample_page : Page :=
  {| descendants := fun el =>
       match el with
       | 1%positive => [2; 3; 4; 5]%positive
       | 7%positive => [8%positive]
       | _ => []
       end;
     info := sample_info;
     focusable_area := fun el =>
       match el with
       | 2%positive | 3%positive | 4%positive | 6%positive => true
       | _ => false
       end |}.

(** Focus is on the opening button and nothing is open. *)
Definition sample_state : State :=
  {| currentModal := None; focusableElements := [];
     firstFocusable := Null; lastFocusable := Null;
     previousFocus := None; activeElement := Some 6%positive;
     body_overflow := ""; attributes := {[ (1%positive, "hidden"%string) := ""%string ]} |}.

Definition tab_key : KeyboardEvent :=
  {| key := "Tab"; shiftKey := false; defaultPrevented := false |}.

Definition shift_tab_key : KeyboardEvent :=
  {| key := "Tab"; shiftKey := true; defaultPrevented := false |}.

Definition escape_key : KeyboardEvent :=
  {| key := "Escape"; shiftKey := false; defaultPrevented := false |}.

(** The first dialog opened from [sample_state], and then focus moved
    to the link, the last focusable element. *)
Definition opened_state : State :=
  openModal sample_page (Some 1%positive) sample_state.

Definition opened_on_last : State :=
  focus sample_page 3%positive opened_state.

(** A dialog (element 1) whose close control (2) is a disabled button
    and whose other elements are a link (3) and a disabled button with
    [tabindex="0"] (4), which the sixth selector lists. Element 6 opens
    the dialog. *)
Definition disabled_page : Page :=
  {| descendants := fun el =>
       match el with
       | 1%positive => [2; 3; 4]%positive
       | _ => []
       end;
     info := fun el =>
       match el with
       | 2%positive =>
           {| localName := "button"; classList := ["modal-close"];
              has_href := false; disabled := true; tabindex := None;
              offsetParent_null := false |}
       | 3%positive =>
           {| localName := "a"; classList := []; has_href := true;
              disabled := false; tabindex := None;
              offsetParent_null := false |}
       | 4%positive =>
           {| localName := "button"; classList := []; has_href := false;
              disabled := true; tabindex := Some "0"%string;
              offsetParent_null := false |}
       | 6%positive => plain "button"
       | _ => plain "div"
       end;
     focusable_area := fun el =>
       match el with
       | 2%positive | 3%positive | 4%positive | 6%positive => true
       | _ => false
       end |}.

End Modal.

(* ===================================================================== *)
(** ** Reading a drawing log *)
(* ===================================================================== *)

Module ChartsExt.

Import Charts.

(** The labels and the values written with [fillText], in order. *)
Definition drawn_labels (log : list DrawCmd) : list string :=
  flat_map (fun c => match c with
                     | FillText (Label s) _ _ => [s]
                     | _ => []
                     end) log.

Definition drawn_values (log : list DrawCmd) : list number :=
  flat_map (fun c => match c with
                     | FillText (NumberToString v) _ _ => [v]
                     | _ => []
                     end) log.

(** The [globalAlpha] in force at every [fillText] of a log replayed on
    a context whose alpha is [alpha], and the alpha left at the end.
    Assigning the canvas's width or height resets the context, and with
    it the alpha, to 1. *)
Fixpoint text_alphas (alpha : number) (log : list DrawCmd) : list number :=
  match log with
  | [] => []
  | SetGlobalAlpha a :: rest => text_alphas a rest
  | SetCanvasWidth _ :: rest => text_alphas (of_Z 1) rest
  | SetCanvasHeight _ :: rest => text_alphas (of_Z 1) rest
  | FillText _ _ _ :: rest => alpha :: text_alphas alpha rest
  | _ :: rest => text_alphas alpha rest
  end.

Fixpoint alpha_after (alpha : number) (log : list DrawCmd) : number :=
  match log with
  | [] => alpha
  | SetGlobalAlpha a :: rest => alpha_after a rest
  | SetCanvasWidth _ :: rest => alpha_after (of_Z 1) rest
  | SetCanvasHeight _ :: rest => alpha_after (of_Z 1) rest
  | _ :: rest => alpha_after alpha rest
  end.

(** The points a log moves or draws a line to, and the corners of the
    rectangles it fills. *)
Definition path_points (log : list DrawCmd) : list (number * number) :=
  flat_map (fun c => match c with
                     | MoveTo x y | LineTo x y => [(x, y)]
                     | _ => []
                     end) log.

Definition dot_corners (log : list DrawCmd) : list (number * number) :=
  flat_map (fun c => match c with
                     | FillRect x y _ _ => [(x, y)]
                     | _ => []
                     end) log.

(** The marks of a chart: rectangles and texts. *)
Definition is_mark (c : DrawCmd) : bool :=
  match c with
  | FillRect _ _ _ _ | StrokeRect _ _ _ _ | FillText _ _ _ => true
  | _ => false
  end.


Definition three_points : list DataPoint :=
  [ {| label := "Jan"; value := of_Z 0 |};
    {| label := "Feb"; value := of_Z 50 |};
    {| label := "Mar"; value := of_Z 30 |} ].

End ChartsExt.

(* ===================================================================== *)
(** ** More of the modal module: runs of the module *)
(* ===================================================================== *)

Module ModalExt.

Import Modal.

(** The module's variables as they are when the module is loaded, and
    again after every [closeModal]. *)
Definition closed (s : State) : Prop :=
  currentModal s = None /\
  focusableElements s = [] /\
  firstFocusable s = Null /\
  lastFocusable s = Null /\
  previousFocus s = None.

(** What holds of a state between calls: an active modal is shown and
    announced and its focusable elements are cached; with no active
    modal the variables are those of [closed]. *)
Definition consistent (page : Page) (s : State) : Prop :=
  match currentModal s with
  | Some m =>
      attributes s !! (m, "hidden"%string) = None /\
      attributes s !! (m, "aria-hidden"%string) = Some "false"%string /\
      focusableElements s = getFocusableElements page m /\
      firstFocusable s = first_of (getFocusableElements page m) /\
      lastFocusable s = last_of (getFocusableElements page m)
  | None => closed s
  end.

(** What happens while a modal stays open: key presses other than
    Escape, handled by [handleModalKeydown], and focus moves made by the
    browser. *)
Inductive browse (page : Page) : State -> State -> Prop :=
| browse_keydown (e e' : KeyboardEvent) (s s' : State) :
    key e <> "Escape"%string -> key e <> "Esc"%string ->
    handleModalKeydown page e s = Done (s', e') -> browse page s s'
| browse_focus (el : Elem) (s : State) :
    browse page s (focus page el s).

(** A modal without a close control whose only focusable element is a
    link. *)
Definition single_page : Page :=
  {| descendants := fun el =>
       match el with
       | 1%positive => [2; 3]%positive
       | _ => []
       end;
     info := fun el =>
       match el with
       | 3%positive =>
           {| localName := "a"; classList := []; has_href := true;
              disabled := false; tabindex := None;
              offsetParent_null := false |}
       | _ => plain "div"
       end;
     focusable_area := fun el =>
       match el with
       | 3%positive | 6%positive => true
       | _ => false
       end |}.

(** The second dialog of [sample_page] opened over the first. *)
Definition nested_state : State :=
  openModal sample_page (Some 7%positive) opened_state.

(** A hidden dialog (element 1) while focus is on the opening button. *)
Definition hidden_state : State :=
  {| currentModal := None; focusableElements := [];
     firstFocusable := Null; lastFocusable := Null;
     previousFocus := None; activeElement := Some 6%positive;
     body_overflow := "";
     attributes := {[ (1%positive, "hidden"%string) := ""%string;
                      (1%positive, "aria-hidden"%string) := "true"%string ]} |}.

End ModalExt.

(* ===================================================================== *)
(** ** Two helpers of [js/utils.js]: the focus trap and the tag filter *)
(* ===================================================================== *)

Module Utils.

Import Modal.

(** *** [trapFocus] *)

(** [element.querySelectorAll(...)] with the six selectors. *)
Definition querySelectorAll_focusable (page : Page) (element : Elem)
  : list Elem :=
  List.filter (fun el => matches_focusable (info page el))
              (descendants page element).

(** What the listener added by [trapFocus] closes over. [onEscape] is
    absent (a falsy argument) or a callback, which returns or throws; a
    truthy value that is not a function throws when it is called. *)
Record FocusTrap := {
  firstElement : ref;
  lastElement : ref;
  onEscape : option (State -> outcome State)
}.

Definition trapFocus (page : Page) (element : Elem)
    (onEscape : option (State -> outcome State)) : FocusTrap :=
  let focusableElements := querySelectorAll_focusable page element in
  {| firstElement := first_of focusableElements;
     lastElement := last_of focusableElements;
     onEscape := onEscape |}.

(** The second statement of the listener: the Tab key. *)
Definition trap_tab (page : Page) (t : FocusTrap) (e : KeyboardEvent)
    (s : State) : outcome (State * KeyboardEvent) :=
  if String.eqb (key e) "Tab" then
    if shiftKey e && same_ref (activeElement s) (firstElement t) then
      match focus_ref page (lastElement t) s with
      | Done s' => Done (s', preventDefault e)
      | Throws => Throws
      end
    else if negb (shiftKey e) && same_ref (activeElement s) (lastElement t) then
      match focus_ref page (firstElement t) s with
      | Done s' => Done (s', preventDefault e)
      | Throws => Throws
      end
    else Done (s, e)
  else Done (s, e).

(** The keydown listener: [onEscape()] on Escape when there is a
    callback, then the Tab key. *)
Definition trap_keydown (page : Page) (t : FocusTrap) (e : KeyboardEvent)
    (s : State) : outcome (State * KeyboardEvent) :=
  if String.eqb (key e) "Escape" then
    match onEscape t with
    | Some callback =>
        match callback s with
        | Done s' => trap_tab page t e s'
        | Throws => Throws
        end
    | None => trap_tab page t e s
    end
  else trap_tab page t e s.

(** *** [filterProjects] *)

(** A project card: its [data-tags] attribute, if it has one, and its
    [style.display]. *)
Record Card := { data_tags : option string; display : string }.

Definition comma : Ascii.ascii := Ascii.ascii_of_nat 44.

(** [s.split(',')]. *)
Fixpoint split_comma (s : string) : list string :=
  match s with
  | EmptyString => [EmptyString]
  | String ch rest =>
      if Ascii.eqb ch comma then EmptyString :: split_comma rest
      else
        match split_comma rest with
        | piece :: pieces => String ch piece :: pieces
        | [] => [String ch EmptyString]
        end
  end.

(** [tags.join(',')], as [createProjectCard] writes [data-tags]. *)
Definition join_comma (tags : list string) : string :=
  String.concat "," tags.

(** [array.includes(tag)] on strings. *)
Definition includes (l : list string) (tag : string) : bool :=
  existsb (String.eqb tag) l.

Definition set_display (v : string) (card : Card) : Card :=
  {| data_tags := data_tags card; display := v |}.

(** A loop over the cards runs to the end, or a card throws a
    TypeError; either way the cards are left as the loop made them. *)
Inductive filtered :=
| Completed (cards : list Card)
| TypeError (cards : list Card).

Definition cards_of (r : filtered) : list Card :=
  match r with
  | Completed cards => cards
  | TypeError cards => cards
  end.

Definition completed (r : filtered) : bool :=
  match r with
  | Completed _ => true
  | TypeError _ => false
  end.

(** The loop goes on after a card that has been dealt with. *)
Definition and_then (card : Card) (r : filtered) : filtered :=
  match r with
  | Completed cards => Completed (card :: cards)
  | TypeError cards => TypeError (card :: cards)
  end.

(** [cards.forEach(...)] in [filterProjects]: [card.dataset.tags] is
    undefined on a card without [data-tags], and [undefined.split]
    throws. *)
Fixpoint filterProjects (tag : string) (cards : list Card) : filtered :=
  match cards with
  | [] => Completed []
  | card :: rest =>
      if String.eqb tag "all" then
        and_then (set_display "" card) (filterProjects tag rest)
      else
        match data_tags card with
        | None => TypeError (card :: rest)
        | Some tags =>
            let cardTags := split_comma tags in
            if includes cardTags tag then
              and_then (set_display "" card) (filterProjects tag rest)
            else
              and_then (set_display "none" card) (filterProjects tag rest)
        end
  end.

Definition has_data_tags (card : Card) : bool :=
  match data_tags card with
  | Some _ => true
  | None => false
  end.

Fixpoint has_comma (s : string) : bool :=
  match s with
  | EmptyString => false
  | String ch rest => Ascii.eqb ch comma || has_comma rest
  end.

(** Three cards, the last one hidden by an earlier filter. *)
Definition sample_cards : list Card :=
  [ {| data_tags := Some "a"%string; display := "" |};
    {| data_tags := Some "b,web"%string; display := "" |};
    {| data_tags := Some "a,b"%string; display := "none" |} ].

(** Cards of which the second has no [data-tags] attribute. *)
Definition untagged_cards : list Card :=
  [ {| data_tags := Some "a"%string; display := "none" |};
    {| data_tags := None; display := "" |};
    {| data_tags := Some "a,b"%string; display := "none" |} ].

(** A page whose last matching element is not laid out. *)
Definition hidden_last_page : Page :=
  {| descendants := fun el =>
       match el with
       | 1%positive => [2; 3]%positive
       | _ => []
       end;
     info := fun el =>
       match el with
       | 2%positive =>
           {| localName := "a"; classList := []; has_href := true;
              disabled := false; tabindex := None;
              offsetParent_null := false |}
       | 3%positive =>
           {| localName := "button"; classList := []; has_href := false;
              disabled := false; tabindex := None;
              offsetParent_null := true |}
       | _ => plain "div"
       end;
     focusable_area := fun el =>
       match el with
       | 2%positive => true
       | _ => false
       end |}.

End Utils.
(* ===================================================================== *)
(** ** Facts about numbers *)
(* ===================================================================== *)

Module NumFacts.

(** *** Special values *)

Lemma div_zero_zero (s1 s2 : bool) :
  div (S754_zero s1) (S754_zero s2) = NaN.
Proof. reflexivity. Qed.

Lemma mul_NaN_l (x : number) : mul NaN x = NaN.
Proof. reflexivity. Qed.

Lemma add_NaN_r (x : number) : add x NaN = NaN.
Proof. destruct x; reflexivity. Qed.

Lemma sub_NaN_r (x : number) : sub x NaN = NaN.
Proof. destruct x; reflexivity. Qed.

(** Dividing by zero never gives a finite number. *)
Lemma div_by_zero_not_finite (x : number) (s : bool) :
  isFinite (div x (S754_zero s)) = false.
Proof. destruct x; reflexivity. Qed.

(** Zero times a number that is not finite is NaN. *)
Lemma mul_zero_not_finite (s : bool) (y : number) :
  isFinite y = false -> mul (S754_zero s) y = NaN.
Proof. destruct y; simpl; intros H; try discriminate; reflexivity. Qed.

Lemma mul_zero_finite (s : bool) (y : number) :
  isFinite y = true -> isZero (mul (S754_zero s) y) = true.
Proof. destruct y; simpl; intros H; try discriminate; reflexivity. Qed.

Lemma shl_align_same (m : positive) (e : Z) : shl_align m e e = (m, e).
Proof. unfold shl_align. rewrite Z.sub_diag. reflexivity. Qed.

(** A finite number minus itself is +0. *)
Lemma sub_self (x : number) : isFinite x = true -> sub x x = pos_zero.
Proof.
  destruct x as [s|s| |s m e]; try discriminate; intros _.
  - destruct s; reflexivity.
  - unfold sub, SFsub.
    rewrite Z.min_id, shl_align_same. cbn [fst].
    rewrite Z.sub_diag. reflexivity.
Qed.

Lemma sub_zero_zero (s1 s2 : bool) :
  isZero (sub (S754_zero s1) (S754_zero s2)) = true.
Proof. destruct s1, s2; reflexivity. Qed.

(** *** Rounding never yields NaN *)

Lemma shr_1_nonneg (mrs : shr_record) :
  0 <= shr_m mrs -> 0 <= shr_m (shr_1 mrs).
Proof.
  destruct mrs as [m r s]. cbn [shr_m].
  destruct m as [|p|p]; intros H; [| |lia];
    try (destruct p); cbn; lia.
Qed.

Lemma iter_shr_1_nonneg (p : positive) :
  forall mrs, 0 <= shr_m mrs -> 0 <= shr_m (SpecFloat.iter_pos shr_1 p mrs).
Proof.
  induction p as [p IH|p IH|]; intros mrs H; cbn [SpecFloat.iter_pos].
  - apply IH, IH, shr_1_nonneg, H.
  - apply IH, IH, H.
  - apply shr_1_nonneg, H.
Qed.

Lemma shr_fexp_nonneg (m e : Z) (l : location) :
  0 <= m -> 0 <= shr_m (fst (shr_fexp prec emax m e l)).
Proof.
  intros H. unfold shr_fexp, shr.
  assert (H0 : 0 <= shr_m (shr_record_of_loc m l))
    by (destruct l as [|[]]; exact H).
  destruct (fexp prec emax (Zdigits2 m + e) - e); cbn [fst];
    try exact H0.
  apply iter_shr_1_nonneg, H0.
Qed.

Lemma round_nearest_even_nonneg (m : Z) (l : location) :
  0 <= m -> 0 <= round_nearest_even m l.
Proof.
  intros H. destruct l as [|[]]; cbn; try lia.
  destruct (Z.even m); lia.
Qed.

Lemma binary_round_aux_not_NaN (s : bool) (m e : Z) (l : location) :
  0 <= m -> isNaN (binary_round_aux prec emax s m e l) = false.
Proof.
  intros H. unfold binary_round_aux.
  pose proof (shr_fexp_nonneg m e l H) as H1.
  destruct (shr_fexp prec emax m e l) as [mrs' e'] eqn:E1. cbn [fst] in H1.
  pose proof (shr_fexp_nonneg _ e' loc_Exact
                (round_nearest_even_nonneg _ (loc_of_shr_record mrs') H1)) as H2.
  destruct (shr_fexp prec emax
              (round_nearest_even (shr_m mrs') (loc_of_shr_record mrs'))
              e' loc_Exact) as [mrs'' e''] eqn:E2.
  cbn [fst] in H2.
  destruct (shr_m mrs'') as [|p|p]; [reflexivity| |lia].
  destruct (e'' <=? emax - prec); reflexivity.
Qed.

Lemma binary_normalize_not_NaN (m e : Z) (sz : bool) :
  isNaN (binary_normalize prec emax m e sz) = false.
Proof.
  destruct m as [|p|p]; cbn [binary_normalize]; [reflexivity| |];
    unfold binary_round;
    destruct (shl_align p e (fexp prec emax (Z.pos (digits2_pos p) + e)));
    apply binary_round_aux_not_NaN; lia.
Qed.

(** The difference of two finite numbers can overflow, but is never NaN. *)
Lemma sub_finite_not_NaN (x y : number) :
  isFinite x = true -> isFinite y = true -> isNaN (sub x y) = false.
Proof.
  destruct x as [sx|sx| |sx mx ex], y as [sy|sy| |sy my ey];
    try discriminate; intros _ _.
  - destruct sx, sy; reflexivity.
  - reflexivity.
  - reflexivity.
  - unfold sub, SFsub. apply binary_normalize_not_NaN.
Qed.
Lemma sub_finite_l (x y : number) :
  isFinite (sub x y) = true -> isFinite x = true.
Proof.
  destruct x as [sx|sx| |sx mx ex], y as [sy|sy| |sy my ey];
    try (destruct sx); try (destruct sy);
    simpl; intros H; try discriminate; reflexivity.
Qed.

(** *** Multiplying by one *)




(** *** The order *)

Ltac cmp_cases :=
  repeat match goal with
  | H : context [Pos.compare_cont Eq ?a ?b] |- _ =>
      change (Pos.compare_cont Eq a b) with (Pos.compare a b) in H
  | |- context [Pos.compare_cont Eq ?a ?b] =>
      change (Pos.compare_cont Eq a b) with (Pos.compare a b)
  end;
  repeat match goal with
  | H : context [Z.compare ?a ?b] |- _ => destruct (Z.compare_spec a b)
  | |- context [Z.compare ?a ?b] => destruct (Z.compare_spec a b)
  | H : context [Pos.compare ?a ?b] |- _ => destruct (Pos.compare_spec a b)
  | |- context [Pos.compare ?a ?b] => destruct (Pos.compare_spec a b)
  end;
  simpl in *; try discriminate; try reflexivity; try lia.

Lemma lt_le (x y : number) : lt x y = true -> le x y = true.
Proof.
  unfold lt, le, SFltb, SFleb.
  destruct (SFcompare x y) as [[]|]; intros; try discriminate; reflexivity.
Qed.

Lemma strict_eq_le (x y : number) : strict_eq x y = true -> le x y = true.
Proof.
  unfold strict_eq, le, SFeqb, SFleb.
  destruct (SFcompare x y) as [[]|]; intros; try discriminate; reflexivity.
Qed.

(** Numbers other than NaN are totally ordered. *)
Lemma not_lt_le (x y : number) :
  isNaN x = false -> isNaN y = false -> lt x y = false -> le y x = true.
Proof.
  unfold lt, le, SFltb, SFleb.
  destruct x as [s1|s1| |s1 m1 e1], y as [s2|s2| |s2 m2 e2];
    simpl; intros Hx Hy; try discriminate;
    try (destruct s1); try (destruct s2); try discriminate; try reflexivity;
    cmp_cases.
Qed.

Lemma le_trans (x y z : number) :
  le x y = true -> le y z = true -> le x z = true.
Proof.
  unfold le, SFleb.
  destruct x as [s1|s1| |s1 m1 e1], y as [s2|s2| |s2 m2 e2],
           z as [s3|s3| |s3 m3 e3];
    simpl; try discriminate;
    try (destruct s1); try (destruct s2); try (destruct s3);
    try discriminate; try reflexivity;
    cmp_cases.
Qed.

Lemma le_antisym (x y : number) :
  le x y = true -> le y x = true -> strict_eq x y = true.
Proof.
  unfold le, strict_eq, SFleb, SFeqb.
  destruct x as [s1|s1| |s1 m1 e1], y as [s2|s2| |s2 m2 e2];
    simpl; try discriminate;
    try (destruct s1); try (destruct s2); try discriminate; try reflexivity;
    cmp_cases.
Qed.

(** [===] on finite numbers: the two zeros are equal to each other, and
    any other number only to itself. *)
Lemma strict_eq_finite (x y : number) :
  strict_eq x y = true -> isFinite x = true ->
  (isZero x = true /\ isZero y = true) \/ (isZero x = false /\ x = y).
Proof.
  unfold strict_eq, SFeqb.
  destruct x as [s1|s1| |s1 m1 e1], y as [s2|s2| |s2 m2 e2];
    simpl; try discriminate; intros H _;
    try (destruct s1); try (destruct s2); try discriminate;
    try (left; split; reflexivity);
    right; split; try reflexivity;
    cmp_cases; subst; reflexivity.
Qed.


Lemma compare_refl (x : number) :
  isNaN x = false -> SFcompare x x = Some Eq.
Proof.
  destruct x as [s|s| |s m e]; simpl; try discriminate; intros _;
    try (destruct s); try reflexivity;
    rewrite Z.compare_refl;
    change (Pos.compare_cont Eq m m) with (Pos.compare m m);
    rewrite Pos.compare_refl; reflexivity.
Qed.

Lemma lt_irrefl (x : number) : lt x x = false.
Proof.
  unfold lt, SFltb. destruct (isNaN x) eqn:E.
  - destruct x; try discriminate. reflexivity.
  - rewrite (compare_refl x E). reflexivity.
Qed.

Lemma strict_eq_refl (x : number) : isNaN x = false -> strict_eq x x = true.
Proof. intros H. unfold strict_eq, SFeqb. rewrite (compare_refl x H). reflexivity. Qed.

Lemma le_refl (x : number) : isNaN x = false -> le x x = true.
Proof. intros H. unfold le, SFleb. rewrite (compare_refl x H). reflexivity. Qed.

(** *** [Math.max] and [Math.min] *)

Lemma all_finite_no_NaN (l : list number) : all_finite l -> no_NaN l.
Proof.
  unfold all_finite, no_NaN.
  induction 1 as [|v l Hv _ IH]; constructor; [|exact IH].
  destruct v; simpl in *; try discriminate; reflexivity.
Qed.

(** One turn of the loop of [Math.max] only raises the running maximum,
    to at least the number it looks at. *)
Lemma max_step (h n : number) :
  isNaN h = false -> isNaN n = false ->
  let h1 := if is_pos_zero n && is_neg_zero h then pos_zero else h in
  let h2 := if lt h1 n then n else h1 in
  isNaN h2 = false /\ le h h2 = true /\ le n h2 = true.
Proof.
  intros Hh Hn h1 h2.
  assert (H1 : isNaN h1 = false /\ le h h1 = true).
  { subst h1. destruct (is_pos_zero n && is_neg_zero h) eqn:E.
    - destruct h as [[]| | |]; simpl in *; try discriminate;
        try (rewrite andb_false_r in E; discriminate).
      split; reflexivity.
    - split; [assumption | apply le_refl; assumption]. }
  destruct H1 as [H1 H1'].
  subst h2. destruct (lt h1 n) eqn:E.
  - split; [assumption|]. split.
    + apply le_trans with h1; [assumption | apply lt_le; assumption].
    + apply le_refl; assumption.
  - split; [assumption|]. split; [assumption|].
    apply not_lt_le; assumption.
Qed.

Lemma max_loop_upper (l : list number) :
  forall h, isNaN h = false -> no_NaN l ->
    le h (max_loop h l) = true /\
    Forall (fun v => le v (max_loop h l) = true) l.
Proof.
  induction l as [|n rest IH]; intros h Hh Hl.
  - split; [apply le_refl; assumption | constructor].
  - inversion Hl as [|? ? Hn Hrest]; subst.
    simpl. rewrite Hn.
    destruct (max_step h n Hh Hn) as (H2 & Hle & Hnle).
    destruct (IH _ H2 Hrest) as [IH1 IH2].
    split; [eapply le_trans; eassumption|].
    constructor; [eapply le_trans; eassumption | assumption].
Qed.

Lemma min_step (h n : number) :
  isNaN h = false -> isNaN n = false ->
  let h1 := if is_neg_zero n && is_pos_zero h then neg_zero else h in
  let h2 := if lt n h1 then n else h1 in
  isNaN h2 = false /\ le h2 h = true /\ le h2 n = true.
Proof.
  intros Hh Hn h1 h2.
  assert (H1 : isNaN h1 = false /\ le h1 h = true).
  { subst h1. destruct (is_neg_zero n && is_pos_zero h) eqn:E.
    - destruct h as [[]| | |]; simpl in *; try discriminate;
        try (rewrite andb_false_r in E; discriminate).
      split; reflexivity.
    - split; [assumption | apply le_refl; assumption]. }
  destruct H1 as [H1 H1'].
  subst h2. destruct (lt n h1) eqn:E.
  - split; [assumption|]. split.
    + apply le_trans with h1; [apply lt_le; assumption | assumption].
    + apply le_refl; assumption.
  - split; [assumption|]. split; [assumption|].
    apply not_lt_le; assumption.
Qed.

Lemma min_loop_lower (l : list number) :
  forall h, isNaN h = false -> no_NaN l ->
    le (min_loop h l) h = true /\
    Forall (fun v => le (min_loop h l) v = true) l.
Proof.
  induction l as [|n rest IH]; intros h Hh Hl.
  - split; [apply le_refl; assumption | constructor].
  - inversion Hl as [|? ? Hn Hrest]; subst.
    simpl. rewrite Hn.
    destruct (min_step h n Hh Hn) as (H2 & Hle & Hnle).
    destruct (IH _ H2 Hrest) as [IH1 IH2].
    split; [eapply le_trans; eassumption|].
    constructor; [eapply le_trans; eassumption | assumption].
Qed.

(** When [Math.min] answers +0 there was no -0 among the numbers. *)
Lemma min_loop_pos_zero (l : list number) :
  forall h, isNaN h = false -> no_NaN l ->
    min_loop h l = pos_zero ->
    h <> neg_zero /\ Forall (fun v => v <> neg_zero) l.
Proof.
  induction l as [|n rest IH]; intros h Hh Hl Hmin.
  - simpl in Hmin. subst h. split; [discriminate | constructor].
  - inversion Hl as [|? ? Hn Hrest]; subst.
    simpl in Hmin. rewrite Hn in Hmin.
    destruct (min_step h n Hh Hn) as (H2 & _ & _).
    destruct (IH _ H2 Hrest Hmin) as [IHh IHrest].
    destruct (min_loop_lower rest _ H2 Hrest) as [Hlow _].
    rewrite Hmin in Hlow.
    cut (h <> neg_zero /\ n <> neg_zero).
    { intros [? ?]. split; [assumption | constructor; assumption]. }
    clear IH Hmin Hrest Hl IHrest H2.
    unfold neg_zero, pos_zero in *.
    destruct h as [[]|[]| |[] mh eh], n as [[]|[]| |[] mn en];
      simpl in *; try discriminate;
      (split; try discriminate); exfalso;
      solve [ apply IHh; reflexivity | discriminate ].
Qed.

(** On a list that repeats one finite number both [Math.max] and
    [Math.min] answer that number. *)
Lemma max_loop_repeat (v : number) (k : nat) :
  isFinite v = true -> max_loop v (repeat v k) = v.
Proof.
  intros Hv. induction k as [|k IH]; [reflexivity|].
  destruct v as [[]| | |s m e]; try discriminate;
    cbn [repeat max_loop isNaN is_pos_zero is_neg_zero andb];
    rewrite lt_irrefl; exact IH.
Qed.

Lemma min_loop_repeat (v : number) (k : nat) :
  isFinite v = true -> min_loop v (repeat v k) = v.
Proof.
  intros Hv. induction k as [|k IH]; [reflexivity|].
  destruct v as [[]| | |s m e]; try discriminate;
    cbn [repeat min_loop isNaN is_pos_zero is_neg_zero andb];
    rewrite lt_irrefl; exact IH.
Qed.

Lemma max_min_repeat (v : number) (k : nat) :
  isFinite v = true ->
  Math_max (repeat v (S k)) = v /\ Math_min (repeat v (S k)) = v.
Proof.
  intros Hv. unfold Math_max, Math_min.
  pose proof (max_loop_repeat v k Hv) as Hmax.
  pose proof (min_loop_repeat v k Hv) as Hmin.
  destruct v as [[]| | |[] m e]; try discriminate;
    cbn [repeat max_loop min_loop isNaN is_pos_zero is_neg_zero andb
         neg_infinity pos_infinity lt SFltb SFcompare];
    split; assumption.
Qed.

End NumFacts.

Import NumFacts.

(* ===================================================================== *)
(** ** The chart renderer: properties *)
(* ===================================================================== *)

Module ChartsSpec.

Import Charts ChartsExt.
Local Open Scope js_scope.

(** *** The loop and the bars *)


Lemma bars_from_Forall (P : Bar -> Prop) (L : Layout) (data : list DataPoint) :
  (forall item index, In item data -> P (bar L item index)) ->
  forall start, Forall P (bars_from L start data).
Proof.
  induction data as [|d rest IH]; intros H start; simpl.
  - constructor.
  - constructor.
    + apply H. left. reflexivity.
    + apply IH. intros item index Hin. apply H. right. exact Hin.
Qed.

(** The drawing calls of the loop are those for the bars, item by item. *)
Lemma forEach_from_bars (win : Window) (L : Layout) (data : list DataPoint) :
  forall start,
    forEach_from (drawItem win L) start data
    = flat_map (fun ib => drawBarAndTexts win L (fst ib) (snd ib))
               (combine data (bars_from L start data)).
Proof.
  induction data as [|d rest IH]; intros start; simpl.
  - reflexivity.
  - rewrite IH. reflexivity.
Qed.

(** The whole log of a chart: set-up, then every item with its bar, then
    the grid and the axes. *)
Lemma renderPixelBarChart_log (win : Window) (c : Canvas)
    (data : list DataPoint) :
  has_context2d c = true ->
  exists setup,
    renderPixelBarChart win (Some c) data
    = Returned
        (setup ++
         flat_map (fun ib => drawBarAndTexts win
                               (layout (boundingClientRect c) data)
                               (fst ib) (snd ib))
                  (combine data (bars (boundingClientRect c) data)) ++
         drawPixelGrid (of_Z 40) (of_Z 40)
           (chartWidth (layout (boundingClientRect c) data))
           (chartHeight (layout (boundingClientRect c) data)) 4 ++
         drawPixelAxes (of_Z 40) (of_Z 40)
           (chartWidth (layout (boundingClientRect c) data))
           (chartHeight (layout (boundingClientRect c) data))
           (color_text_muted win))%list.
Proof.
  intros Hctx. unfold renderPixelBarChart. rewrite Hctx. cbn [negb].
  eexists. unfold forEach. rewrite forEach_from_bars. reflexivity.
Qed.

(** *** All values zero *)

Lemma max_loop_zeros (l : list number) :
  forall h, isZero h = true -> Forall (fun v => isZero v = true) l ->
    isZero (max_loop h l) = true.
Proof.
  induction l as [|n rest IH]; intros h Hh Hl.
  - exact Hh.
  - inversion Hl as [|? ? Hn Hrest]; subst.
    destruct h as [sh| | |]; try discriminate.
    destruct n as [sn| | |]; try discriminate.
    simpl. apply IH; [|exact Hrest].
    destruct sn, sh; reflexivity.
Qed.

Lemma Math_max_zeros (l : list number) :
  l <> [] -> Forall (fun v => isZero v = true) l ->
  isZero (Math_max l) = true.
Proof.
  destruct l as [|n rest]; [congruence|]. intros _ Hl.
  inversion Hl as [|? ? Hn Hrest]; subst.
  destruct n as [sn| | |]; try discriminate.
  unfold Math_max. simpl.
  apply max_loop_zeros; [|exact Hrest].
  destruct sn; reflexivity.
Qed.

(** With every value zero the maximum is zero, each quotient
    [value / maxValue] is 0/0, and every bar height is NaN. *)
Lemma bar_heights_all_zero (rect : DOMRect) (data : list DataPoint) :
  data <> [] ->
  Forall (fun d => isZero (value d) = true) data ->
  Forall (fun b => bar_height b = NaN /\ bar_y b = NaN) (bars rect data).
Proof.
  intros Hne Hz. unfold bars.
  assert (Hmax : isZero (maxValue (layout rect data)) = true).
  { cbn [layout maxValue]. apply Math_max_zeros.
    - destruct data; [congruence | discriminate].
    - clear Hne. induction Hz; constructor; assumption. }
  apply bars_from_Forall. intros item index Hin.
  rewrite Forall_forall in Hz. apply list_elem_of_In in Hin.
  specialize (Hz item Hin).
  unfold bar. cbn [bar_height bar_y].
  destruct (value item) as [sv| | |]; try discriminate.
  destruct (maxValue (layout rect data)) as [sm| | |]; try discriminate.
  rewrite div_zero_zero, mul_NaN_l, sub_NaN_r. split; reflexivity.
Qed.




(** *** The January and February example *)



(** *** Sparkline *)

Lemma points_from_Forall (P : number * number -> Prop) (sl : SparkLayout)
    (values : list number) :
  (forall v index, In v values -> P (point_x sl index, point_y sl v)) ->
  forall start, Forall P (points_from sl start values).
Proof.
  induction values as [|v rest IH]; intros H start; simpl.
  - constructor.
  - constructor.
    + apply H. left. reflexivity.
    + apply IH. intros w index Hin. apply H. right. exact Hin.
Qed.

Lemma dots_from (sl : SparkLayout) (values : list number) :
  forall start,
    forEach_from
      (fun v index =>
         [FillRect (point_x sl index - of_Z 2) (point_y sl v - of_Z 2)
                   (of_Z 4) (of_Z 4)])
      start values
    = map (fun p => FillRect (fst p - of_Z 2) (snd p - of_Z 2) (of_Z 4) (of_Z 4))
          (points_from sl start values).
Proof.
  induction values as [|v rest IH]; intros start; simpl.
  - reflexivity.
  - rewrite IH. reflexivity.
Qed.

Lemma lines_from (sl : SparkLayout) (values : list number) :
  forall start,
    forEach_from
      (fun v index =>
         if Nat.eqb index 0 then [MoveTo (point_x sl index) (point_y sl v)]
         else [LineTo (point_x sl index) (point_y sl v)])
      (S start) values
    = map (fun p => LineTo (fst p) (snd p)) (points_from sl (S start) values).
Proof.
  induction values as [|v rest IH]; intros start; simpl.
  - reflexivity.
  - rewrite IH. reflexivity.
Qed.

(** The whole log of a sparkline: set-up, a path that moves to the first
    point and runs through the others, and a 4 x 4 dot on every point. *)
Lemma renderSparkline_log (c : Canvas) (values : list number)
    (color : option string) :
  has_context2d c = true ->
  exists setup colour,
    renderSparkline (Some c) values color
    = Returned
        (setup ++
         match points c values with
         | [] => []
         | p :: rest =>
             MoveTo (fst p) (snd p)
             :: map (fun q => LineTo (fst q) (snd q)) rest
         end ++
         [Stroke; SetFillStyle colour] ++
         map (fun p => FillRect (fst p - of_Z 2) (snd p - of_Z 2)
                                (of_Z 4) (of_Z 4))
             (points c values))%list.
Proof.
  intros Hctx. unfold renderSparkline. rewrite Hctx. cbn [negb].
  do 2 eexists. unfold forEach, points. cbv zeta.
  rewrite dots_from. f_equal. f_equal. f_equal.
  destruct values as [|v rest]; [reflexivity|].
  cbn [forEach_from points_from Nat.eqb fst snd app].
  rewrite lines_from. reflexivity.
Qed.

(** The points of the path and the corners of the dots, read back from
    the log of a sparkline. *)
Lemma path_points_app (l1 l2 : list DrawCmd) :
  path_points (l1 ++ l2) = (path_points l1 ++ path_points l2)%list.
Proof. apply flat_map_app. Qed.

Lemma dot_corners_app (l1 l2 : list DrawCmd) :
  dot_corners (l1 ++ l2) = (dot_corners l1 ++ dot_corners l2)%list.
Proof. apply flat_map_app. Qed.

Lemma points_from_length (sl : SparkLayout) (values : list number) :
  forall start, length (points_from sl start values) = length values.
Proof.
  induction values as [|v rest IH]; intros start; simpl;
    [reflexivity | rewrite IH; reflexivity].
Qed.

Lemma line_points (sl : SparkLayout) (values : list number) :
  forall start,
    let line :=
      forEach_from
        (fun v index =>
           if Nat.eqb index 0 then [MoveTo (point_x sl index) (point_y sl v)]
           else [LineTo (point_x sl index) (point_y sl v)])
        start values in
    path_points line = points_from sl start values /\
    dot_corners line = [].
Proof.
  induction values as [|v rest IH]; intros start; [split; reflexivity|].
  cbv zeta. cbn [forEach_from points_from].
  rewrite path_points_app, dot_corners_app.
  destruct (IH (S start)) as [-> ->].
  destruct (Nat.eqb start 0); split; reflexivity.
Qed.

Lemma dot_points (sl : SparkLayout) (values : list number) :
  forall start,
    let dots :=
      forEach_from
        (fun v index =>
           [FillRect (point_x sl index - of_Z 2) (point_y sl v - of_Z 2)
                     (of_Z 4) (of_Z 4)])
        start values in
    path_points dots = [] /\
    dot_corners dots
      = map (fun p => (fst p - of_Z 2, snd p - of_Z 2))
            (points_from sl start values).
Proof.
  induction values as [|v rest IH]; intros start; [split; reflexivity|].
  cbv zeta. cbn [forEach_from points_from map].
  rewrite path_points_app, dot_corners_app.
  destruct (IH (S start)) as [-> ->]. split; reflexivity.
Qed.

(** What a sparkline draws on a canvas with a context: a path through
    its points, and a dot whose corner is 2 left of and 2 above each
    point. *)
Lemma renderSparkline_points (c : Canvas) (values : list number)
    (color : option string) :
  has_context2d c = true ->
  exists log,
    renderSparkline (Some c) values color = Returned log /\
    path_points log = points c values /\
    dot_corners log
      = map (fun p => (fst p - of_Z 2, snd p - of_Z 2)) (points c values).
Proof.
  intros Hctx. unfold renderSparkline. rewrite Hctx. cbn [negb].
  eexists. split; [reflexivity|]. cbv zeta. unfold forEach, points.
  destruct (line_points (sparkLayout c values) values 0%nat) as [Hl1 Hl2].
  destruct (dot_points (sparkLayout c values) values 0%nat) as [Hd1 Hd2].
  cbv zeta in Hl1, Hl2, Hd1, Hd2.
  rewrite !path_points_app, !dot_corners_app, Hl1, Hl2, Hd1, Hd2.
  cbn [path_points dot_corners flat_map app].
  rewrite !app_nil_r. split; reflexivity.
Qed.

(** When the largest and the smallest of a list of finite numbers are
    equal, every number less the smallest is +0, and so is their
    difference up to the sign of zero. *)
Lemma constant_values (values : list number) :
  values <> [] -> all_finite values ->
  strict_eq (Math_max values) (Math_min values) = true ->
  isZero (Math_max values - Math_min values) = true /\
  Forall (fun v => v - Math_min values = pos_zero) values.
Proof.
  intros Hne Hfin Heq.
  pose proof (all_finite_no_NaN _ Hfin) as Hnn.
  destruct (max_loop_upper values neg_infinity eq_refl Hnn) as [_ Hmax].
  destruct (min_loop_lower values pos_infinity eq_refl Hnn) as [_ Hmin].
  fold (Math_max values) in Hmax. fold (Math_min values) in Hmin.
  set (M := Math_max values) in *. set (m := Math_min values) in *.
  pose proof (strict_eq_le _ _ Heq) as HMm.
  assert (Hall : forall v, In v values ->
            le m v = true /\ le v M = true /\ isFinite v = true).
  { intros v Hin. apply list_elem_of_In in Hin.
    unfold all_finite in Hfin. rewrite Forall_forall in Hfin, Hmax, Hmin.
    auto. }
  assert (Hpt : forall v, In v values ->
            v - m = pos_zero /\ isFinite m = true).
  { intros v Hin. destruct (Hall v Hin) as (Hmv & HvM & Hv).
    assert (Hvm : strict_eq v m = true).
    { apply le_antisym; [|exact Hmv]. apply le_trans with M; assumption. }
    destruct (strict_eq_finite _ _ Hvm Hv) as [[Hz1 Hz2]|[Hnz Hsame]].
    - destruct v as [sv| | |]; try discriminate.
      destruct m as [sm| | |] eqn:Em; try discriminate.
      split; [|reflexivity].
      destruct sm; [destruct sv; reflexivity|].
      destruct (min_loop_pos_zero values pos_infinity eq_refl Hnn Em)
        as [_ Hnz].
      rewrite Forall_forall in Hnz. apply list_elem_of_In in Hin.
      specialize (Hnz _ Hin).
      destruct sv; [exfalso; apply Hnz; reflexivity | reflexivity].
    - rewrite <- Hsame. split; [apply sub_self|]; exact Hv. }
  split.
  - destruct values as [|v0 rest]; [congruence|].
    destruct (Hall v0 (or_introl eq_refl)) as (Hmv & HvM & Hv).
    destruct (Hpt v0 (or_introl eq_refl)) as [_ Hm].
    assert (HmM : strict_eq m M = true).
    { apply le_antisym; [|exact HMm]. apply le_trans with v0; assumption. }
    destruct (strict_eq_finite _ _ HmM Hm) as [[Hz1 Hz2]|[Hnz Hsame]].
    + destruct m as [sm| | |]; try discriminate.
      destruct M as [sM| | |]; try discriminate.
      apply sub_zero_zero.
    + rewrite <- Hsame. rewrite sub_self by exact Hm. reflexivity.
  - apply Forall_forall. intros v Hin. apply list_elem_of_In in Hin.
    apply (Hpt v Hin).
Qed.

(** A list that repeats one finite number meets the three conditions
    on the values. *)
Lemma repeat_is_constant (v : number) (k : nat) :
  isFinite v = true ->
  repeat v (S k) <> [] /\
  all_finite (repeat v (S k)) /\
  strict_eq (Math_max (repeat v (S k))) (Math_min (repeat v (S k))) = true.
Proof.
  intros Hv. split; [discriminate|]. split.
  - unfold all_finite. apply Forall_forall. intros x Hx.
    apply list_elem_of_In, repeat_spec in Hx. subst x. exact Hv.
  - destruct (max_min_repeat v k Hv) as [-> ->].
    apply strict_eq_refl. destruct v; try discriminate; reflexivity.
Qed.

(** Finiteness of the values is needed: Infinity less Infinity is NaN. *)
Example infinite_values_give_NaN :
  strict_eq (Math_max [pos_infinity; pos_infinity])
            (Math_min [pos_infinity; pos_infinity]) = true /\
  map snd (points sample_canvas [pos_infinity; pos_infinity]) = [NaN; NaN].
Proof. split; vm_compute; reflexivity. Qed.

(** Without values the divisor is -1 and the step is finite, but there
    is no point to place. *)
Example empty_values_step :
  isFinite (stepX (sparkLayout sample_canvas [])) = true /\
  points sample_canvas [] = [].
Proof. split; vm_compute; reflexivity. Qed.

Lemma baseline_y_not_NaN (c : Canvas) :
  isFinite (canvas_height c - of_Z 4 * of_Z 2) = true ->
  isNaN (baseline_y c) = false.
Proof.
  unfold baseline_y. intros HB.
  assert (Hz : isZero (pos_zero * (canvas_height c - of_Z 4 * of_Z 2)) = true)
    by (apply mul_zero_finite; exact HB).
  assert (HA : isNaN (canvas_height c - of_Z 4) = false)
    by (apply sub_finite_not_NaN; [exact (sub_finite_l _ _ HB) | reflexivity]).
  destruct (pos_zero * (canvas_height c - of_Z 4 * of_Z 2))
    as [sz| | |]; simpl in Hz; try discriminate.
  destruct (canvas_height c - of_Z 4) as [sa|sa| |sa m e];
    simpl in HA; try discriminate.
  - destruct sa, sz; reflexivity.
  - reflexivity.
  - reflexivity.
Qed.

(** With a single value the step is a quotient by zero. *)
Lemma singleton_step (c : Canvas) (v : number) :
  isFinite (stepX (sparkLayout c [v])) = false.
Proof.
  cbn [sparkLayout stepX length].
  change (of_nat 1 - of_Z 1) with pos_zero.
  apply div_by_zero_not_finite.
Qed.

Lemma point_x_0_not_finite (sl : SparkLayout) :
  isFinite (stepX sl) = false -> point_x sl 0 = NaN.
Proof.
  intros H. unfold point_x.
  change (of_nat 0) with (S754_zero false).
  rewrite (mul_zero_not_finite _ _ H). apply add_NaN_r.
Qed.


(** *** The properties of the specification *)

(** C1. With every value 0 the maximum is 0 and the quotient
    [value / maxValue] is 0/0: nothing guards the division, so the
    height and the top of every bar are NaN, not 0, and [fillRect] is
    called with NaN; shown here on the chart of two zero values. *)
Theorem all_zero_chart_has_NaN_heights :
  map bar_height (bars sample_rect all_zero_data) = [NaN; NaN] /\
  exists log,
    renderPixelBarChart sample_window (Some sample_canvas) all_zero_data
      = Returned log /\
    In (FillRect (of_Z 56) NaN (of_Z 128) NaN) log.
Proof.
  split; [vm_compute; reflexivity|].
  eexists. split; [reflexivity|].
  vm_compute. right. right. right. right. right. right. left. reflexivity.
Qed.

(** C6. For every non-empty sequence of finite values whose maximum
    equals its minimum, the zero range is replaced by 1, the share
    [(value - min) / range] is +0 for every point, and [renderSparkline]
    draws one point of the path and one dot for every value, all at the
    same y, which is a number as long as the vertical extent, the
    canvas height less the padding on both sides, is finite. *)
Theorem sparkline_constant_values (c : Canvas) (values : list number)
    (color : option string) :
  has_context2d c = true ->
  values <> [] ->
  all_finite values ->
  strict_eq (Math_max values) (Math_min values) = true ->
  let sl := sparkLayout c values in
  sp_range sl = of_Z 1 /\
  Forall (fun v => fraction sl v = pos_zero) values /\
  (exists log,
     renderSparkline (Some c) values color = Returned log /\
     length (path_points log) = length values /\
     Forall (fun p => snd p = baseline_y c) (path_points log) /\
     length (dot_corners log) = length values /\
     Forall (fun p => snd p = baseline_y c - of_Z 2) (dot_corners log)) /\
  (isFinite (canvas_height c - of_Z 4 * of_Z 2) = true ->
   isNaN (baseline_y c) = false).
Proof.
  intros Hctx Hne Hfin Heq sl.
  destruct (constant_values values Hne Hfin Heq) as [Hrange Hsub].
  assert (Hr : sp_range sl = of_Z 1).
  { subst sl. cbn [sparkLayout sp_range]. unfold or_else.
    destruct (Math_max values - Math_min values) as [sz| | |];
      try discriminate.
    reflexivity. }
  assert (Hfr : forall v, In v values -> fraction sl v = pos_zero).
  { intros v Hin. unfold fraction. rewrite Hr.
    rewrite Forall_forall in Hsub. apply list_elem_of_In in Hin.
    change (sp_minValue sl) with (Math_min values).
    rewrite (Hsub v Hin). reflexivity. }
  assert (Hy : Forall (fun p => snd p = baseline_y c) (points c values)).
  { unfold points. fold sl. apply points_from_Forall.
    intros v index Hin. cbn [snd]. unfold point_y.
    rewrite (Hfr v Hin). reflexivity. }
  split; [exact Hr|]. split; [|split].
  - apply Forall_forall. intros v Hin. apply list_elem_of_In in Hin.
    apply Hfr. exact Hin.
  - destruct (renderSparkline_points c values color Hctx)
      as (log & Hlog & Hpath & Hdots).
    exists log. split; [exact Hlog|]. rewrite Hpath, Hdots.
    split; [apply points_from_length|]. split; [exact Hy|].
    split; [rewrite length_map; apply points_from_length|].
    apply Forall_map. cbn [snd].
    eapply Forall_impl; [exact Hy|]. intros p Hp. cbn beta in Hp |- *.
    rewrite Hp. reflexivity.
  - apply baseline_y_not_NaN.
Qed.


(** C8. [renderPixelBarChart] and [renderSparkline] return without a
    single drawing call whenever the canvas gives no 2D context, for
    every data. A missing canvas is guarded in [initChart] only, which
    returns without calling [renderPixelBarChart]. *)
Theorem render_without_context_is_noop (win : Window) (c : Canvas)
    (data : list DataPoint) (values : list number) (color : option string) :
  has_context2d c = false ->
  renderPixelBarChart win (Some c) data = Returned [] /\
  renderSparkline (Some c) values color = Returned [] /\
  initChart win None data = Returned [].
Proof.
  intros H. unfold renderPixelBarChart, renderSparkline. rewrite H.
  repeat split.
Qed.

(** C10. [renderSparkline] divides the horizontal extent by the number
    of values less one, unguarded. With a single value that is a
    division by zero: the step is not finite, the one point of the path
    and its dot are drawn with NaN for x, while y is computed as for
    any list. So for a list with at least one value the step is finite
    only when there are two. With no value the divisor is -1, the step
    is the extent negated, and nothing is drawn. *)
Theorem sparkline_step_needs_two_values :
  (forall (c : Canvas) (values : list number),
     stepX (sparkLayout c values)
     = (canvas_width c - of_Z 4 * of_Z 2) / (of_nat (length values) - of_Z 1)) /\
  (forall (c : Canvas) (v : number) (color : option string),
     has_context2d c = true ->
     isFinite (stepX (sparkLayout c [v])) = false /\
     exists log,
       renderSparkline (Some c) [v] color = Returned log /\
       path_points log = [(NaN, point_y (sparkLayout c [v]) v)] /\
       dot_corners log
         = [(NaN, point_y (sparkLayout c [v]) v - of_Z 2)]) /\
  (forall (c : Canvas) (values : list number),
     values <> [] ->
     isFinite (stepX (sparkLayout c values)) = true ->
     (2 <= length values)%nat) /\
  (forall (c : Canvas) (color : option string),
     has_context2d c = true ->
     stepX (sparkLayout c [])
       = (canvas_width c - of_Z 4 * of_Z 2) / of_Z (-1) /\
     exists log,
       renderSparkline (Some c) [] color = Returned log /\
       path_points log = [] /\ dot_corners log = []).
Proof.
  split; [reflexivity|]. split; [|split].
  - intros c v color Hctx. split; [apply singleton_step|].
    destruct (renderSparkline_points c [v] color Hctx)
      as (log & Hlog & Hpath & Hdots).
    exists log. split; [exact Hlog|]. rewrite Hpath, Hdots.
    unfold points. cbn [points_from map fst snd].
    rewrite (point_x_0_not_finite _ (singleton_step c v)).
    split; reflexivity.
  - intros c values Hne Hfin.
    destruct values as [|v [|w rest]]; [congruence| |simpl; lia].
    rewrite singleton_step in Hfin. discriminate.
  - intros c color Hctx. split; [reflexivity|].
    destruct (renderSparkline_points c [] color Hctx)
      as (log & Hlog & Hpath & Hdots).
    exists log. split; [exact Hlog|]. split; assumption.
Qed.

(** *** Instances *)

Lemma sparkline_constant_values_witness :
  let values := [of_Z 5; of_Z 5; of_Z 5; of_Z 5; of_Z 5] in
  exists log,
    renderSparkline (Some sample_canvas) values None = Returned log /\
    length (path_points log) = 5%nat /\
    Forall (fun p => snd p = of_Z 26) (path_points log).
Proof.
  destruct (sparkline_constant_values sample_canvas
              [of_Z 5; of_Z 5; of_Z 5; of_Z 5; of_Z 5] None)
    as (_ & _ & (log & Hlog & Hlen & Hy & _) & _).
  - reflexivity.
  - discriminate.
  - repeat constructor.
  - vm_compute. reflexivity.
  - exists log. split; [exact Hlog|]. split; [exact Hlen|]. exact Hy.
Defined.

(** Two values that are both Infinity have their maximum equal to their
    minimum, and the two points are drawn with NaN for y. *)
Lemma infinite_constant_sparkline :
  let values := [pos_infinity; pos_infinity] in
  values <> [] /\
  strict_eq (Math_max values) (Math_min values) = true /\
  exists log,
    renderSparkline (Some sample_canvas) values None = Returned log /\
    path_points log = [(of_Z 4, NaN); (of_Z 96, NaN)].
Proof.
  cbv zeta. split; [discriminate|]. split; [vm_compute; reflexivity|].
  eexists. split; [reflexivity|]. vm_compute. reflexivity.
Qed.


Lemma render_without_context_witness :
  has_context2d no_context_canvas = false /\
  renderPixelBarChart sample_window (Some no_context_canvas) jan_feb
    = Returned [] /\
  renderSparkline (Some no_context_canvas) [of_Z 5] None = Returned [] /\
  initChart sample_window None jan_feb = Returned [].
Proof.
  split; [reflexivity|].
  apply (render_without_context_is_noop sample_window no_context_canvas
           jan_feb [of_Z 5] None).
  reflexivity.
Defined.

(** A missing canvas makes both renderers throw. *)
Lemma null_canvas_throws :
  renderPixelBarChart sample_window None jan_feb = TypeError /\
  renderSparkline None [of_Z 5] None = TypeError.
Proof. split; reflexivity. Qed.

Lemma sparkline_step_witness :
  isFinite (stepX (sparkLayout sample_canvas [of_Z 1; of_Z 2; of_Z 3])) = true /\
  (2 <= length [of_Z 1; of_Z 2; of_Z 3])%nat /\
  exists log,
    renderSparkline (Some sample_canvas) [of_Z 5] None = Returned log /\
    path_points log = [(NaN, of_Z 26)].
Proof.
  split; [vm_compute; reflexivity|]. split.
  - apply (proj1 (proj2 (proj2 sparkline_step_needs_two_values))
             sample_canvas).
    + discriminate.
    + vm_compute. reflexivity.
  - destruct (proj1 (proj2 sparkline_step_needs_two_values)
                sample_canvas (of_Z 5) None eq_refl)
      as (_ & log & Hlog & Hpath & _).
    exists log. split; [exact Hlog | exact Hpath].
Defined.

(** Without values the step is finite though there are fewer than two
    of them; and the one point of a single value has NaN for x only,
    its y is 26 on the sample canvas. *)
Lemma sparkline_step_finite_without_values :
  (isFinite (stepX (sparkLayout sample_canvas [])) = true /\
   ~ (2 <= length (@nil number))%nat) /\
  exists log,
    renderSparkline (Some sample_canvas) [of_Z 5] None = Returned log /\
    path_points log = [(NaN, of_Z 26)] /\
    isFinite (of_Z 26) = true.
Proof.
  split.
  - split; [vm_compute; reflexivity | simpl; lia].
  - eexists. split; [reflexivity|]. split; vm_compute; reflexivity.
Qed.

End ChartsSpec.

(* ===================================================================== *)
(** ** The modal module: properties *)
(* ===================================================================== *)

Module ModalSpec.

Import Modal.

Example sample_focusable :
  getFocusableElements sample_page 1%positive = [2; 3]%positive.
Proof. reflexivity. Qed.

Example sample_open :
  let s := openModal sample_page (Some 1%positive) sample_state in
  currentModal s = Some 1%positive /\
  activeElement s = Some 2%positive /\
  previousFocus s = Some 6%positive /\
  firstFocusable s = Ref 2%positive /\
  lastFocusable s = Ref 3%positive /\
  body_overflow s = "hidden"%string.
Proof. vm_compute. repeat split. Qed.

Example sample_shift_tab :
  exists s' e',
    handleModalKeydown sample_page shift_tab_key
      (focus sample_page 2%positive opened_state)
      = Done (s', e') /\
    activeElement s' = Some 3%positive /\ defaultPrevented e' = true.
Proof. do 2 eexists. split; [vm_compute; reflexivity|]. split; reflexivity. Qed.

Example sample_tab_in_the_middle :
  handleModalKeydown sample_page shift_tab_key opened_on_last
    = Done (opened_on_last, shift_tab_key).
Proof. vm_compute. reflexivity. Qed.

(** While the dialog is hidden its close button refuses the focus, and
    a disabled input refuses it even in the open dialog. *)
Example sample_refusals :
  takes_focus sample_page sample_state 2%positive = false /\
  takes_focus sample_page opened_state 2%positive = true /\
  takes_focus sample_page opened_state 4%positive = false /\
  focus sample_page 4%positive opened_state = opened_state.
Proof. vm_compute. repeat split. Qed.


(** *** The ends of the cached list *)

Lemma nth_error_lookup (l : list Elem) :
  forall i, nth_error l i = l !! i.
Proof.
  induction l as [|a rest IH]; intros [|i]; simpl; try reflexivity.
  apply IH.
Qed.

Lemma last_of_last (l : list Elem) (x : Elem) :
  last l = Some x -> last_of l = Ref x.
Proof.
  intros H. unfold last_of. destruct l as [|a rest]; [discriminate|].
  rewrite last_lookup in H.
  replace (length (a :: rest) - 1)%nat with (pred (length (a :: rest))) by lia.
  rewrite nth_error_lookup, H. reflexivity.
Qed.

Lemma first_of_head (l : list Elem) (x : Elem) :
  head l = Some x -> first_of l = Ref x.
Proof. destruct l; simpl; intros H; [discriminate | injection H as ->; reflexivity]. Qed.

Lemma nonempty_ends (l : list Elem) :
  l <> [] -> exists f x, head l = Some f /\ last l = Some x.
Proof.
  intros H. destruct l as [|a rest]; [congruence|].
  exists a. destruct (last (a :: rest)) as [x|] eqn:E.
  - exists x. split; reflexivity.
  - apply last_None in E. discriminate.
Qed.

(** *** Which elements take the focus *)

Lemma under_hidden_true (page : Page) (s : State) (el : Elem) :
  under_hidden page s el = true <->
  exists above,
    hasAttribute above "hidden" s = true /\
    (above = el \/ In el (descendants page above)).
Proof.
  unfold under_hidden. rewrite existsb_exists. split.
  - intros ([[above name] v] & Hin & H).
    apply list_elem_of_In, elem_of_map_to_list in Hin.
    apply andb_true_iff in H. destruct H as [Hname Hbelow].
    apply String.eqb_eq in Hname. subst name.
    exists above. split.
    + unfold hasAttribute.
      replace (attributes s !! (above, "hidden"%string)) with (Some v).
      reflexivity.
    + apply orb_true_iff in Hbelow. destruct Hbelow as [Hsame|Hin'].
      * left. apply Pos.eqb_eq. exact Hsame.
      * right. apply existsb_exists in Hin'.
        destruct Hin' as (x & Hx & Heq). apply Pos.eqb_eq in Heq.
        subst x. exact Hx.
  - intros (above & Hh & Hbelow).
    unfold hasAttribute in Hh.
    destruct (attributes s !! (above, "hidden"%string)) as [v|] eqn:E;
      [|discriminate].
    exists ((above, "hidden"%string), v). split.
    + apply list_elem_of_In, elem_of_map_to_list. exact E.
    + apply andb_true_iff. split; [reflexivity|].
      apply orb_true_iff. destruct Hbelow as [->|Hin].
      * left. apply Pos.eqb_refl.
      * right. apply existsb_exists. exists el.
        split; [exact Hin | apply Pos.eqb_refl].
Qed.

(** Only the [hidden] attributes of the document matter. *)
Lemma takes_focus_same_hidden (page : Page) (s1 s2 : State) (el : Elem) :
  (forall above,
     hasAttribute above "hidden" s1 = hasAttribute above "hidden" s2) ->
  takes_focus page s1 el = takes_focus page s2 el.
Proof.
  intros H. unfold takes_focus. f_equal. f_equal.
  destruct (under_hidden page s1 el) eqn:E1,
           (under_hidden page s2 el) eqn:E2; try reflexivity; exfalso.
  - apply under_hidden_true in E1. destruct E1 as (above & Hh & Hb).
    rewrite H in Hh.
    assert (E : under_hidden page s2 el = true)
      by (apply under_hidden_true; exists above; split; assumption).
    congruence.
  - apply under_hidden_true in E2. destruct E2 as (above & Hh & Hb).
    rewrite <- H in Hh.
    assert (E : under_hidden page s1 el = true)
      by (apply under_hidden_true; exists above; split; assumption).
    congruence.
Qed.

Lemma takes_focus_attributes (page : Page) (s1 s2 : State) (el : Elem) :
  attributes s1 = attributes s2 ->
  takes_focus page s1 el = takes_focus page s2 el.
Proof.
  intros H. apply takes_focus_same_hidden. intros above.
  unfold hasAttribute. rewrite H. reflexivity.
Qed.

(** An element below an element that carries [hidden] refuses the
    focus. *)
Lemma hidden_refuses (page : Page) (s : State) (above el : Elem) :
  hasAttribute above "hidden" s = true ->
  above = el \/ In el (descendants page above) ->
  takes_focus page s el = false.
Proof.
  intros Hh Hb. unfold takes_focus.
  assert (E : under_hidden page s el = true)
    by (apply under_hidden_true; exists above; split; assumption).
  rewrite E. apply andb_false_r.
Qed.

(** [focus] writes nothing but [document.activeElement]. *)
Lemma focus_fields (page : Page) (el : Elem) (s : State) :
  currentModal (focus page el s) = currentModal s /\
  focusableElements (focus page el s) = focusableElements s /\
  firstFocusable (focus page el s) = firstFocusable s /\
  lastFocusable (focus page el s) = lastFocusable s /\
  previousFocus (focus page el s) = previousFocus s /\
  body_overflow (focus page el s) = body_overflow s /\
  attributes (focus page el s) = attributes s.
Proof. unfold focus. destruct (takes_focus page s el); repeat split. Qed.

Lemma focus_activeElement (page : Page) (el : Elem) (s : State) :
  activeElement (focus page el s)
  = if takes_focus page s el then Some el else activeElement s.
Proof. unfold focus. destruct (takes_focus page s el); reflexivity. Qed.

(** *** The two functions, unfolded *)

Lemma openModal_unfold (page : Page) (m : Elem) (s : State) :
  openModal page (Some m) s
  = setAttribute m "aria-hidden" "false"
      match focus_target page m with
      | Some el => focus page el (prepared page m s)
      | None => prepared page m s
      end.
Proof.
  unfold openModal, focus_target, prepared.
  destruct (querySelector_modal_close page m); [reflexivity|].
  cbn [firstFocusable set_lastFocusable set_firstFocusable
       focusableElements set_focusableElements].
  destruct (getFocusableElements page m); reflexivity.
Qed.

Lemma closeModal_unfold (page : Page) (m : Elem) (s : State) :
  closeModal page (Some m) s
  = set_lastFocusable Null
      (set_firstFocusable Null
         (set_focusableElements []
            (set_currentModal None
               match previousFocus s with
               | Some p =>
                   set_previousFocus None (focus page p (hidden_again m s))
               | None => hidden_again m s
               end))).
Proof. reflexivity. Qed.

Lemma takes_focus_prepared (page : Page) (m : Elem) (s : State) (el : Elem) :
  takes_focus page (prepared page m s) el
  = takes_focus page (removeAttribute m "hidden" s) el.
Proof. apply takes_focus_attributes. reflexivity. Qed.

Lemma takes_focus_hidden_again (page : Page) (m : Elem) (s : State)
    (el : Elem) :
  takes_focus page (hidden_again m s) el
  = takes_focus page (setAttribute m "hidden" "" s) el.
Proof.
  apply takes_focus_same_hidden. intros above.
  unfold hasAttribute, hidden_again. cbn [attributes set_body_overflow setAttribute].
  rewrite (lookup_insert_ne _ (m, "aria-hidden"%string)) by (intros [=]).
  reflexivity.
Qed.

(** *** The boundaries are kept by every function of the module *)

(** The module variables after [openModal]. *)
Lemma openModal_vars (page : Page) (m : Elem) (s : State) :
  let s' := openModal page (Some m) s in
  currentModal s' = Some m /\
  focusableElements s' = getFocusableElements page m /\
  firstFocusable s' = first_of (getFocusableElements page m) /\
  lastFocusable s' = last_of (getFocusableElements page m) /\
  previousFocus s' = activeElement s /\
  body_overflow s' = "hidden"%string.
Proof.
  cbv zeta. rewrite openModal_unfold.
  destruct (focus_target page m) as [el|]; [|repeat split].
  destruct (focus_fields page el (prepared page m s))
    as (Hc & Hl & Hf & Hx & Hp & Hb & _).
  cbn [currentModal focusableElements firstFocusable lastFocusable
       previousFocus body_overflow setAttribute].
  rewrite Hc, Hl, Hf, Hx, Hp, Hb. repeat split.
Qed.

Lemma openModal_boundaries_ok (page : Page) (m : Elem) (s : State) :
  boundaries_ok (openModal page (Some m) s).
Proof.
  destruct (openModal_vars page m s) as (_ & Hl & Hf & Hx & _).
  unfold boundaries_ok. rewrite Hl, Hf, Hx. intros _. split; reflexivity.
Qed.

Lemma closeModal_boundaries_ok (page : Page) (m : Elem) (s : State) :
  boundaries_ok (closeModal page (Some m) s).
Proof. rewrite closeModal_unfold. unfold boundaries_ok. cbn. congruence. Qed.

Lemma focus_boundaries_ok (page : Page) (el : Elem) (s : State) :
  boundaries_ok s -> boundaries_ok (focus page el s).
Proof.
  destruct (focus_fields page el s) as (_ & Hl & Hf & Hx & _).
  unfold boundaries_ok. rewrite Hl, Hf, Hx. tauto.
Qed.

(** The callback of the observer writes nothing but the body's
    overflow. *)
Lemma on_mutation_fields (modal : Elem) (attributeName : string) (s : State) :
  let s' := on_mutation modal attributeName s in
  currentModal s' = currentModal s /\
  focusableElements s' = focusableElements s /\
  firstFocusable s' = firstFocusable s /\
  lastFocusable s' = lastFocusable s /\
  previousFocus s' = previousFocus s /\
  activeElement s' = activeElement s /\
  attributes s' = attributes s.
Proof.
  unfold on_mutation.
  destruct (String.eqb attributeName "hidden"); [|repeat split].
  destruct (hasAttribute modal "hidden" s); repeat split.
Qed.

Lemma observer_callback_fields (modal : Elem) (mutations : list string)
    (s : State) :
  let s' := observer_callback modal mutations s in
  currentModal s' = currentModal s /\
  focusableElements s' = focusableElements s /\
  firstFocusable s' = firstFocusable s /\
  lastFocusable s' = lastFocusable s /\
  previousFocus s' = previousFocus s /\
  activeElement s' = activeElement s /\
  attributes s' = attributes s.
Proof.
  unfold observer_callback. revert s.
  induction mutations as [|a rest IH]; intros s; [repeat split|].
  cbn [fold_left].
  destruct (IH (on_mutation modal a s)) as (H1 & H2 & H3 & H4 & H5 & H6 & H7).
  destruct (on_mutation_fields modal a s) as (G1 & G2 & G3 & G4 & G5 & G6 & G7).
  cbv zeta. repeat split; congruence.
Qed.

Lemma observer_callback_boundaries_ok (modal : Elem)
    (mutations : list string) (s : State) :
  boundaries_ok s -> boundaries_ok (observer_callback modal mutations s).
Proof.
  destruct (observer_callback_fields modal mutations s)
    as (_ & Hl & Hf & Hx & _).
  unfold boundaries_ok. rewrite Hl, Hf, Hx. tauto.
Qed.

(** Within its boundaries the Tab handler never calls [focus] on null
    or undefined. *)
Lemma handleTabKey_boundaries_ok (page : Page) (e : KeyboardEvent)
    (s : State) :
  boundaries_ok s ->
  exists s' e', handleTabKey page e s = Done (s', e') /\ boundaries_ok s'.
Proof.
  intros Hok. unfold handleTabKey.
  destruct (focusableElements s) as [|a rest] eqn:El.
  - do 2 eexists. split; [reflexivity | exact Hok].
  - assert (Hne : focusableElements s <> []) by (rewrite El; discriminate).
    destruct (nonempty_ends _ Hne) as (f & x & Hf & Hx).
    destruct (Hok Hne) as [H1 H2].
    rewrite (first_of_head _ _ Hf) in H1. rewrite (last_of_last _ _ Hx) in H2.
    rewrite H1, H2. cbn [focus_ref].
    destruct (shiftKey e);
      [destruct (same_ref (activeElement s) (Ref f))
      |destruct (same_ref (activeElement s) (Ref x))];
      do 2 eexists; (split; [reflexivity|]);
      try exact Hok; apply focus_boundaries_ok; exact Hok.
Qed.

Lemma handleModalKeydown_boundaries_ok (page : Page) (e : KeyboardEvent)
    (s : State) :
  boundaries_ok s ->
  exists s' e',
    handleModalKeydown page e s = Done (s', e') /\ boundaries_ok s'.
Proof.
  intros Hok. unfold handleModalKeydown.
  destruct (currentModal s) as [m|].
  - destruct (String.eqb (key e) "Escape" || String.eqb (key e) "Esc").
    + do 2 eexists. split; [reflexivity | apply closeModal_boundaries_ok].
    + destruct (String.eqb (key e) "Tab").
      * apply handleTabKey_boundaries_ok. exact Hok.
      * do 2 eexists. split; [reflexivity | exact Hok].
  - do 2 eexists. split; [reflexivity | exact Hok].
Qed.

Lemma reachable_boundaries_ok (page : Page) (s : State) :
  reachable page s -> boundaries_ok s.
Proof.
  induction 1 as [s Hs | s s' _ IH Hstep].
  - unfold boundaries_ok. congruence.
  - inversion Hstep as [m s0|m s0|e e' s0 s0' Hk|el s0|modal mutations s0];
      subst.
    + apply openModal_boundaries_ok.
    + apply closeModal_boundaries_ok.
    + destruct (handleModalKeydown_boundaries_ok page e s IH)
        as (s1 & e1 & H1 & Hok).
      rewrite Hk in H1. injection H1 as -> _. exact Hok.
    + apply focus_boundaries_ok. exact IH.
    + apply observer_callback_boundaries_ok. exact IH.
Qed.

(** *** Attributes *)

Lemma state_ext (s1 s2 : State) :
  currentModal s1 = currentModal s2 ->
  focusableElements s1 = focusableElements s2 ->
  firstFocusable s1 = firstFocusable s2 ->
  lastFocusable s1 = lastFocusable s2 ->
  previousFocus s1 = previousFocus s2 ->
  activeElement s1 = activeElement s2 ->
  body_overflow s1 = body_overflow s2 ->
  attributes s1 = attributes s2 ->
  s1 = s2.
Proof. destruct s1, s2; simpl; intros; subst; reflexivity. Qed.

Lemma hide_twice (m : Elem) (a : gmap (Elem * string) string) :
  <[(m, "aria-hidden"%string) := "true"%string]>
    (<[(m, "hidden"%string) := ""%string]>
      (<[(m, "aria-hidden"%string) := "true"%string]>
        (<[(m, "hidden"%string) := ""%string]> a)))
  = <[(m, "aria-hidden"%string) := "true"%string]>
      (<[(m, "hidden"%string) := ""%string]> a).
Proof.
  apply map_eq. intros k.
  rewrite !lookup_insert. repeat case_decide; reflexivity.
Qed.

Lemma closeModal_attributes (page : Page) (m : Elem) (s : State) :
  attributes (closeModal page (Some m) s)
  = <[(m, "aria-hidden"%string) := "true"%string]>
      (<[(m, "hidden"%string) := ""%string]> (attributes s)).
Proof.
  rewrite closeModal_unfold.
  destruct (previousFocus s) as [p|]; [|reflexivity].
  cbn [attributes set_lastFocusable set_firstFocusable set_focusableElements
       set_currentModal set_previousFocus].
  rewrite (proj2 (proj2 (proj2 (proj2 (proj2 (proj2
             (focus_fields page p (hidden_again m s)))))))).
  reflexivity.
Qed.

(** The module variables and the focus after [closeModal]. *)
Lemma closeModal_vars (page : Page) (m : Elem) (s : State) :
  let s' := closeModal page (Some m) s in
  currentModal s' = None /\
  focusableElements s' = [] /\
  firstFocusable s' = Null /\
  lastFocusable s' = Null /\
  previousFocus s' = None /\
  body_overflow s' = ""%string /\
  activeElement s' = match previousFocus s with
                     | Some p =>
                         if takes_focus page (setAttribute m "hidden" "" s) p
                         then Some p else activeElement s
                     | None => activeElement s
                     end.
Proof.
  cbv zeta. rewrite closeModal_unfold.
  destruct (previousFocus s) as [p|] eqn:Hp;
    [|cbn; rewrite Hp; repeat split].
  destruct (focus_fields page p (hidden_again m s))
    as (_ & _ & _ & _ & _ & Hb & _).
  cbn [currentModal focusableElements firstFocusable lastFocusable
       previousFocus body_overflow activeElement
       set_lastFocusable set_firstFocusable set_focusableElements
       set_currentModal set_previousFocus].
  rewrite Hb, focus_activeElement, takes_focus_hidden_again.
  repeat split.
Qed.

(** *** The properties of the specification *)

(** C2. While a modal is active, Tab without Shift on the last focusable
    element prevents the default and calls [focus] on the first one, and
    Shift+Tab on the first prevents the default and calls [focus] on the
    last: the focus moves there when that element takes it, and stays
    where it is, the default still prevented, when it does not. This
    holds whenever the cached list has at least one element, and with an
    empty list the handler changes nothing. Away from the two ends the
    handler leaves the state and the event as they are. *)
Theorem tab_wraps_at_the_ends (page : Page) (s : State) (e : KeyboardEvent)
    (m : Elem) :
  currentModal s = Some m ->
  boundaries_ok s ->
  key e = "Tab"%string ->
  match focusableElements s with
  | [] => handleModalKeydown page e s = Done (s, e)
  | _ =>
      exists f l,
        head (focusableElements s) = Some f /\
        last (focusableElements s) = Some l /\
        (shiftKey e = false -> activeElement s = Some l ->
           exists s' e',
             handleModalKeydown page e s = Done (s', e') /\
             s' = focus page f s /\
             activeElement s'
               = (if takes_focus page s f then Some f else Some l) /\
             defaultPrevented e' = true) /\
        (shiftKey e = true -> activeElement s = Some f ->
           exists s' e',
             handleModalKeydown page e s = Done (s', e') /\
             s' = focus page l s /\
             activeElement s'
               = (if takes_focus page s l then Some l else Some f) /\
             defaultPrevented e' = true) /\
        (shiftKey e = false -> activeElement s <> Some l ->
           handleModalKeydown page e s = Done (s, e)) /\
        (shiftKey e = true -> activeElement s <> Some f ->
           handleModalKeydown page e s = Done (s, e))
  end.
Proof.
  intros Hm Hok Hkey.
  assert (Hk : handleModalKeydown page e s = handleTabKey page e s).
  { unfold handleModalKeydown. rewrite Hm, Hkey. reflexivity. }
  rewrite Hk. clear Hk. unfold handleTabKey.
  destruct (focusableElements s) as [|a rest] eqn:El; [reflexivity|].
  assert (Hne : focusableElements s <> []) by (rewrite El; discriminate).
  destruct (Hok Hne) as [H1 H2]. rewrite El in H1, H2.
  assert (Hends : exists f l, head (a :: rest) = Some f /\ last (a :: rest) = Some l)
    by (apply nonempty_ends; discriminate).
  destruct Hends as (f & l & Hf & Hl).
  rewrite (first_of_head _ _ Hf) in H1. rewrite (last_of_last _ _ Hl) in H2.
  exists f, l. rewrite H1, H2. cbn [focus_ref].
  split; [exact Hf|]. split; [exact Hl|].
  split; [|split; [|split]].
  - intros -> Ha. rewrite Ha. cbn [same_ref]. rewrite Pos.eqb_refl.
    do 2 eexists. split; [reflexivity|]. split; [reflexivity|].
    split; [|reflexivity].
    rewrite focus_activeElement, Ha. reflexivity.
  - intros -> Ha. rewrite Ha. cbn [same_ref]. rewrite Pos.eqb_refl.
    do 2 eexists. split; [reflexivity|]. split; [reflexivity|].
    split; [|reflexivity].
    rewrite focus_activeElement, Ha. reflexivity.
  - intros -> Ha.
    destruct (same_ref (activeElement s) (Ref l)) eqn:E; [|reflexivity].
    exfalso. apply Ha. unfold same_ref in E.
    destruct (activeElement s) as [x|]; [|discriminate].
    apply Pos.eqb_eq in E. congruence.
  - intros -> Ha.
    destruct (same_ref (activeElement s) (Ref f)) eqn:E; [|reflexivity].
    exfalso. apply Ha. unfold same_ref in E.
    destruct (activeElement s) as [x|]; [|discriminate].
    apply Pos.eqb_eq in E. congruence.
Qed.

(** C3. For every modal element, [openModal] records the element that
    had focus, and then calls [focus] on the close control if the modal
    has one, otherwise on the first of the focusable elements computed
    for the modal: the focus is on that element afterwards when it takes
    the focus in the shown modal, and stays where it was when it does
    not or when there is no such element. A close control that refuses
    the focus is not replaced by the first focusable element. *)
Theorem openModal_moves_focus (page : Page) (m : Elem) (s : State) :
  let s' := openModal page (Some m) s in
  previousFocus s' = activeElement s /\
  currentModal s' = Some m /\
  focusableElements s' = getFocusableElements page m /\
  activeElement s' =
    match querySelector_modal_close page m with
    | Some closeBtn =>
        if takes_focus page (removeAttribute m "hidden" s) closeBtn
        then Some closeBtn else activeElement s
    | None =>
        match getFocusableElements page m with
        | first :: _ =>
            if takes_focus page (removeAttribute m "hidden" s) first
            then Some first else activeElement s
        | [] => activeElement s
        end
    end.
Proof.
  destruct (openModal_vars page m s) as (Hc & Hl & _ & _ & Hp & _).
  cbv zeta. split; [exact Hp|]. split; [exact Hc|]. split; [exact Hl|].
  rewrite openModal_unfold. unfold focus_target.
  cbn [activeElement setAttribute].
  destruct (querySelector_modal_close page m) as [closeBtn|].
  - rewrite focus_activeElement, takes_focus_prepared. reflexivity.
  - destruct (getFocusableElements page m) as [|first rest]; [reflexivity|].
    rewrite focus_activeElement, takes_focus_prepared. reflexivity.
Qed.

(** C4. For every modal element, [closeModal] hides the modal and then
    calls [focus] on the element recorded at open time: the focus is
    back on that element when it takes the focus with the modal hidden,
    and stays where it is when it does not. The call clears that record,
    the cached list of focusable elements and the two boundary
    references. Closing a modal right after opening it returns focus to
    the element that had it, when that element takes the focus with the
    modal hidden. *)
Theorem closeModal_restores_focus :
  (forall (page : Page) (m : Elem) (s : State) (p : Elem),
     previousFocus s = Some p ->
     let s' := closeModal page (Some m) s in
     activeElement s'
       = (if takes_focus page (setAttribute m "hidden" "" s) p
          then Some p else activeElement s) /\
     previousFocus s' = None /\
     focusableElements s' = [] /\
     firstFocusable s' = Null /\
     lastFocusable s' = Null) /\
  (forall (page : Page) (m : Elem) (s : State) (p : Elem),
     activeElement s = Some p ->
     takes_focus page (setAttribute m "hidden" "" s) p = true ->
     activeElement (closeModal page (Some m) (openModal page (Some m) s))
     = Some p).
Proof.
  split.
  - intros page m s p Hp.
    destruct (closeModal_vars page m s) as (_ & Hl & Hf & Hx & Hprev & _ & Ha).
    rewrite Hp in Ha. cbv zeta. repeat split; assumption.
  - intros page m s p Hp Htakes.
    destruct (closeModal_vars page m (openModal page (Some m) s))
      as (_ & _ & _ & _ & _ & _ & Ha).
    destruct (openModal_vars page m s) as (_ & _ & _ & _ & Hprev & _).
    rewrite Ha, Hprev, Hp.
    replace (takes_focus page
               (setAttribute m "hidden" "" (openModal page (Some m) s)) p)
      with (takes_focus page (setAttribute m "hidden" "" s) p).
    + rewrite Htakes. reflexivity.
    + apply takes_focus_same_hidden. intros above.
      unfold hasAttribute. cbn [attributes setAttribute].
      rewrite openModal_unfold.
      destruct (focus_target page m) as [el|];
        cbn [attributes setAttribute];
        rewrite ?(proj2 (proj2 (proj2 (proj2 (proj2 (proj2
                    (focus_fields page el (prepared page m s))))))));
        cbn [attributes prepared set_lastFocusable set_firstFocusable
             set_focusableElements set_body_overflow set_currentModal
             removeAttribute set_previousFocus];
        (destruct (decide (above = m)) as [->|Hne];
         [rewrite !lookup_insert_eq; reflexivity
         |rewrite !lookup_insert_ne by congruence;
          rewrite lookup_delete_ne by congruence; reflexivity]).
Qed.

(** C5. While a modal is active, a keydown of Escape (or Esc) prevents
    the default and closes the active modal: that modal is hidden, no
    modal is active afterwards, and no attribute of any other element
    changes. With no active modal the handler does nothing, whatever
    the key. *)
Theorem escape_closes_the_active_modal (page : Page) (s : State)
    (e : KeyboardEvent) :
  match currentModal s with
  | None => handleModalKeydown page e s = Done (s, e)
  | Some m =>
      key e = "Escape"%string \/ key e = "Esc"%string ->
      exists s' e',
        handleModalKeydown page e s = Done (s', e') /\
        s' = closeModal page (Some m) s /\
        defaultPrevented e' = true /\
        currentModal s' = None /\
        attributes s' !! (m, "hidden"%string) = Some ""%string /\
        attributes s' !! (m, "aria-hidden"%string) = Some "true"%string /\
        (forall (other : Elem) (name : string),
           other <> m ->
           attributes s' !! (other, name) = attributes s !! (other, name))
  end.
Proof.
  destruct (currentModal s) as [m|] eqn:Hm.
  - intros Hkey. unfold handleModalKeydown. rewrite Hm.
    assert (Hesc : (String.eqb (key e) "Escape" || String.eqb (key e) "Esc") = true).
    { destruct Hkey as [-> | ->]; reflexivity. }
    rewrite Hesc. do 2 eexists. split; [reflexivity|].
    split; [reflexivity|]. split; [reflexivity|].
    destruct (closeModal_vars page m s) as (Hc & _).
    split; [exact Hc|].
    rewrite closeModal_attributes.
    split; [|split].
    + rewrite lookup_insert_ne by (intros [=]). apply lookup_insert_eq.
    + apply lookup_insert_eq.
    + intros other name Hne.
      rewrite !lookup_insert_ne by congruence. reflexivity.
  - unfold handleModalKeydown. rewrite Hm. reflexivity.
Qed.

(** C9. [closeModal] resets the module's state for every element handed
    to it, the active modal or not: afterwards no modal is active, the
    list of focusable elements is empty, both boundary references are
    null and the body's overflow lock is released; a second call with
    the same element changes nothing. *)
Theorem closeModal_resets_and_is_idempotent (page : Page) (m : Elem)
    (s : State) :
  let s' := closeModal page (Some m) s in
  currentModal s' = None /\
  focusableElements s' = [] /\
  firstFocusable s' = Null /\
  lastFocusable s' = Null /\
  body_overflow s' = ""%string /\
  closeModal page (Some m) s' = s'.
Proof.
  destruct (closeModal_vars page m s) as (Hc & Hl & Hf & Hx & Hp & Hb & _).
  cbv zeta. repeat (split; [assumption|]).
  destruct (closeModal_vars page m (closeModal page (Some m) s))
    as (Hc' & Hl' & Hf' & Hx' & Hp' & Hb' & Ha').
  rewrite Hp in Ha'.
  apply state_ext; try congruence.
  rewrite !closeModal_attributes. apply hide_twice.
Qed.


(** *** Instances *)

Lemma tab_wraps_witness :
  currentModal opened_on_last = Some 1%positive /\
  key tab_key = "Tab"%string /\
  exists s' e',
    handleModalKeydown sample_page tab_key opened_on_last = Done (s', e') /\
    activeElement s' = Some 2%positive /\
    defaultPrevented e' = true.
Proof.
  split; [reflexivity|]. split; [reflexivity|].
  assert (Hok : boundaries_ok opened_on_last)
    by (intros _; split; vm_compute; reflexivity).
  pose proof (tab_wraps_at_the_ends sample_page opened_on_last tab_key
                1%positive eq_refl Hok eq_refl) as H.
  change (focusableElements opened_on_last) with [2; 3]%positive in H.
  destruct H as (f & l & Hf & Hl & Hfwd & _).
  injection Hf as <-. injection Hl as <-.
  destruct (Hfwd eq_refl) as (s' & e' & Hk & _ & Ha & Hd);
    [vm_compute; reflexivity|].
  exists s', e'. split; [exact Hk|]. split; [|exact Hd].
  rewrite Ha. vm_compute. reflexivity.
Defined.

(** On a page whose last listed element is a disabled button with a
    [tabindex], Shift+Tab on the first element prevents the default and
    the focus does not reach the last element. *)
Lemma tab_wrap_refused :
  let s := focus disabled_page 3%positive
             (openModal disabled_page (Some 1%positive) sample_state) in
  currentModal s = Some 1%positive /\
  head (focusableElements s) = Some 3%positive /\
  last (focusableElements s) = Some 4%positive /\
  activeElement s = Some 3%positive /\
  exists s' e',
    handleModalKeydown disabled_page shift_tab_key s = Done (s', e') /\
    defaultPrevented e' = true /\
    activeElement s' <> Some 4%positive.
Proof.
  cbv zeta. split; [vm_compute; reflexivity|].
  split; [vm_compute; reflexivity|]. split; [vm_compute; reflexivity|].
  split; [vm_compute; reflexivity|].
  do 2 eexists. split; [vm_compute; reflexivity|].
  split; [reflexivity|]. cbn. discriminate.
Qed.

(** On a page whose close control is a disabled button, the focus is
    not on the close control after [openModal], and not on the first
    focusable element either: it stays on the opening button. *)
Lemma disabled_close_keeps_focus :
  let s' := openModal disabled_page (Some 1%positive) sample_state in
  querySelector_modal_close disabled_page 1%positive = Some 2%positive /\
  getFocusableElements disabled_page 1%positive = [3; 4]%positive /\
  activeElement s' <> Some 2%positive /\
  activeElement s' = activeElement sample_state.
Proof.
  cbv zeta. split; [reflexivity|]. split; [reflexivity|].
  assert (H : activeElement
                (openModal disabled_page (Some 1%positive) sample_state)
              = Some 6%positive) by (vm_compute; reflexivity).
  rewrite H. split; [discriminate | reflexivity].
Qed.

(** The dialog is opened, the focus moves to its link, and the dialog
    is opened once more: the link is the recorded element, and
    [closeModal] does not put the focus back on it, since it lies in
    the dialog just hidden. *)
Lemma closeModal_focus_refused :
  let s := openModal sample_page (Some 1%positive) opened_on_last in
  previousFocus s = Some 3%positive /\
  activeElement (closeModal sample_page (Some 1%positive) s)
    <> Some 3%positive.
Proof.
  cbv zeta. split; [vm_compute; reflexivity|].
  assert (H : activeElement
                (closeModal sample_page (Some 1%positive)
                   (openModal sample_page (Some 1%positive) opened_on_last))
              = Some 2%positive) by (vm_compute; reflexivity).
  rewrite H. discriminate.
Qed.

Lemma closeModal_restores_focus_witness :
  previousFocus opened_state = Some 6%positive /\
  activeElement (closeModal sample_page (Some 1%positive) opened_state)
    = Some 6%positive /\
  activeElement
    (closeModal sample_page (Some 1%positive)
       (openModal sample_page (Some 1%positive) sample_state))
  = Some 6%positive.
Proof.
  split; [vm_compute; reflexivity|]. split.
  - destruct (proj1 closeModal_restores_focus sample_page 1%positive
                opened_state 6%positive eq_refl) as (Ha & _).
    etransitivity; [exact Ha|]. vm_compute. reflexivity.
  - apply (proj2 closeModal_restores_focus sample_page 1%positive sample_state);
      vm_compute; reflexivity.
Defined.

Lemma escape_closes_witness :
  currentModal opened_state = Some 1%positive /\
  key escape_key = "Escape"%string /\
  exists s' e',
    handleModalKeydown sample_page escape_key opened_state = Done (s', e') /\
    currentModal s' = None /\
    defaultPrevented e' = true.
Proof.
  split; [vm_compute; reflexivity|]. split; [reflexivity|].
  pose proof (escape_closes_the_active_modal sample_page opened_state
                escape_key) as H.
  change (currentModal opened_state) with (Some 1%positive) in H.
  destruct (H (or_introl eq_refl)) as (s' & e' & Hk & _ & Hd & Hc & _).
  exists s', e'. repeat split; assumption.
Defined.

End ModalSpec.

(* ===================================================================== *)
(** ** More facts about numbers *)
(* ===================================================================== *)

Module NumFacts2.

Import NumFacts.

(** *** A number divided by itself *)



(** *** [Math.max] and [Math.min] answer one of the numbers *)





(** *** NaN among the numbers *)






End NumFacts2.

(* ===================================================================== *)
(** ** More properties of the chart renderer *)
(* ===================================================================== *)

Module ChartsExtra.

Import Charts ChartsExt NumFacts2 ChartsSpec.
Local Open Scope js_scope.

(** *** The tallest bar and the bars of zero *)




(** *** A value that is not a number *)



(** *** The extent of a sparkline *)





(** *** What the log of a chart says *)

Lemma drawn_labels_app (l1 l2 : list DrawCmd) :
  drawn_labels (l1 ++ l2) = (drawn_labels l1 ++ drawn_labels l2)%list.
Proof. apply flat_map_app. Qed.

Lemma drawn_values_app (l1 l2 : list DrawCmd) :
  drawn_values (l1 ++ l2) = (drawn_values l1 ++ drawn_values l2)%list.
Proof. apply flat_map_app. Qed.

Lemma forEach_drawn (win : Window) (L : Layout) (data : list DataPoint) :
  forall start,
    drawn_labels (forEach_from (drawItem win L) start data) = map label data /\
    drawn_values (forEach_from (drawItem win L) start data) = map value data.
Proof.
  induction data as [|d rest IH]; intros start; [split; reflexivity|].
  cbn [forEach_from map]. rewrite drawn_labels_app, drawn_values_app.
  destruct (IH (S start)) as [-> ->]. split; reflexivity.
Qed.

(** X14. A chart writes the label and the value of every data point once,
    in the order of the data, and writes nothing else. *)
Theorem texts_follow_the_data (win : Window) (c : Canvas)
    (data : list DataPoint) :
  has_context2d c = true ->
  exists log,
    renderPixelBarChart win (Some c) data = Returned log /\
    drawn_labels log = map label data /\
    drawn_values log = map value data.
Proof.
  intros Hctx. unfold renderPixelBarChart. rewrite Hctx. cbn [negb].
  eexists. split; [reflexivity|].
  set (L := layout (boundingClientRect c) data).
  rewrite !drawn_labels_app, !drawn_values_app. unfold forEach.
  destruct (forEach_drawn win L data 0%nat) as [-> ->].
  split.
  - change (drawn_labels (drawPixelGrid (padding L) (padding L)
                            (chartWidth L) (chartHeight L) 4)) with (@nil string).
    cbn. apply app_nil_r.
  - change (drawn_values (drawPixelGrid (padding L) (padding L)
                            (chartWidth L) (chartHeight L) 4)) with (@nil number).
    cbn. apply app_nil_r.
Qed.

Lemma texts_follow_the_data_witness :
  exists log,
    renderPixelBarChart sample_window (Some sample_canvas) three_points
      = Returned log /\
    drawn_labels log = ["Jan"; "Feb"; "Mar"]%string.
Proof.
  destruct (texts_follow_the_data sample_window sample_canvas three_points
              eq_refl) as (log & Hlog & Hl & _).
  exists log. split; [exact Hlog | exact Hl].
Defined.

(** *** The alpha of the context *)

Lemma text_alphas_app (l1 l2 : list DrawCmd) :
  forall alpha,
    text_alphas alpha (l1 ++ l2)
    = (text_alphas alpha l1 ++ text_alphas (alpha_after alpha l1) l2)%list.
Proof.
  induction l1 as [|cmd rest IH]; intros alpha; [reflexivity|].
  destruct cmd; cbn [app text_alphas alpha_after]; rewrite IH; reflexivity.
Qed.

Lemma alpha_after_app (l1 l2 : list DrawCmd) :
  forall alpha,
    alpha_after alpha (l1 ++ l2) = alpha_after (alpha_after alpha l1) l2.
Proof.
  induction l1 as [|cmd rest IH]; intros alpha; [reflexivity|].
  destruct cmd; cbn [app alpha_after]; apply IH.
Qed.

Lemma forEach_alphas (win : Window) (L : Layout) (data : list DataPoint) :
  forall start alpha,
    Forall (fun a => a = of_Z 1)
           (text_alphas alpha (forEach_from (drawItem win L) start data)) /\
    alpha_after alpha (forEach_from (drawItem win L) start data)
      = match data with [] => alpha | _ => of_Z 1 end.
Proof.
  induction data as [|d rest IH]; intros start alpha.
  - split; [constructor | reflexivity].
  - cbn [forEach_from]. rewrite text_alphas_app, alpha_after_app.
    change (alpha_after alpha (drawItem win L d start)) with (of_Z 1).
    change (text_alphas alpha (drawItem win L d start))
      with [of_Z 1; of_Z 1].
    destruct (IH (S start) (of_Z 1)) as [Hall Hend].
    split.
    + constructor; [reflexivity|]. constructor; [reflexivity|]. exact Hall.
    + rewrite Hend. destruct rest; reflexivity.
Qed.

(** X15. Whatever alpha the context has when a chart is rendered, every
    label and every value is written with alpha 1 and the alpha is 1
    when the call returns: assigning the canvas's width resets the
    context, and [drawPixelBar] sets the alpha back to 1 after the
    shadow strip. *)
Theorem texts_are_opaque (win : Window) (c : Canvas)
    (data : list DataPoint) (alpha : number) :
  has_context2d c = true ->
  exists log,
    renderPixelBarChart win (Some c) data = Returned log /\
    Forall (fun a => a = of_Z 1) (text_alphas alpha log) /\
    alpha_after alpha log = of_Z 1.
Proof.
  intros Hctx. unfold renderPixelBarChart. rewrite Hctx. cbn [negb].
  eexists. split; [reflexivity|].
  set (L := layout (boundingClientRect c) data).
  set (grid := drawPixelGrid (padding L) (padding L) (chartWidth L)
                 (chartHeight L) 4).
  set (axes := drawPixelAxes (padding L) (padding L) (chartWidth L)
                 (chartHeight L) (color_text_muted win)).
  cbn [app text_alphas alpha_after]. unfold forEach.
  rewrite text_alphas_app, !alpha_after_app.
  destruct (forEach_alphas win L data 0%nat (of_Z 1)) as [Hall Hend].
  assert (Hone : alpha_after (of_Z 1) (forEach_from (drawItem win L) 0 data)
                 = of_Z 1)
    by (rewrite Hend; destruct data; reflexivity).
  rewrite Hone. split.
  - apply Forall_app. split; [exact Hall|].
    rewrite text_alphas_app.
    change (text_alphas (of_Z 1) grid) with (@nil number).
    cbn [app]. subst axes. cbn. constructor.
  - subst grid axes. reflexivity.
Qed.

Lemma texts_are_opaque_witness :
  exists log,
    renderPixelBarChart sample_window (Some sample_canvas) three_points
      = Returned log /\
    alpha_after lit_0_3 log = of_Z 1.
Proof.
  destruct (texts_are_opaque sample_window sample_canvas three_points
              lit_0_3 eq_refl) as (log & Hlog & _ & Hend).
  exists log. split; [exact Hlog | exact Hend].
Defined.

(** *** Nothing to draw *)

(** X16. With no data the renderers return without a mark: the chart draws
    its grid and axes only, fills no rectangle and writes no text; the
    sparkline strokes an empty path and places no dot. *)
Theorem empty_input_draws_no_mark (win : Window) (c : Canvas)
    (color : option string) :
  has_context2d c = true ->
  (exists log,
     renderPixelBarChart win (Some c) [] = Returned log /\
     List.filter is_mark log = [] /\
     bars (boundingClientRect c) [] = []) /\
  (exists colour,
     renderSparkline (Some c) [] color
     = Returned [ ClearRect (of_Z 0) (of_Z 0) (canvas_width c) (canvas_height c);
                  SetImageSmoothingEnabled false;
                  SetStrokeStyle colour;
                  SetLineWidth (of_Z 2);
                  BeginPath;
                  Stroke;
                  SetFillStyle colour ]).
Proof.
  intros Hctx. split.
  - unfold renderPixelBarChart. rewrite Hctx. cbn [negb].
    eexists. split; [reflexivity|]. split; reflexivity.
  - unfold renderSparkline. rewrite Hctx. cbn [negb].
    eexists. reflexivity.
Qed.

Lemma empty_input_draws_no_mark_witness :
  exists log,
    renderPixelBarChart sample_window (Some sample_canvas) [] = Returned log /\
    List.filter is_mark log = [].
Proof.
  destruct (proj1 (empty_input_draws_no_mark sample_window sample_canvas
                     None eq_refl)) as (log & Hlog & Hm & _).
  exists log. split; [exact Hlog | exact Hm].
Defined.

End ChartsExtra.

(* ===================================================================== *)
(** ** More properties of the modal module *)
(* ===================================================================== *)

Module ModalExtra.

Import Modal ModalExt ModalSpec.

(** *** The list of focusable elements *)

Lemma List_filter_sublist {A : Type} (f : A -> bool) (l : list A) :
  sublist (List.filter f l) l.
Proof.
  induction l as [|a rest IH]; simpl.
  - constructor.
  - destruct (f a); [apply sublist_skip | apply sublist_cons]; exact IH.
Qed.

Lemma focusable_In (page : Page) (container el : Elem) :
  In el (getFocusableElements page container) <->
  In el (descendants page container) /\
  offsetParent_null (info page el) = false /\
  matches_focusable (info page el) = true.
Proof.
  unfold getFocusableElements. rewrite !filter_In.
  destruct (offsetParent_null (info page el)); cbn; intuition congruence.
Qed.

(** X1. [getFocusableElements] answers the descendants of the container
    that are laid out and match one of the six selectors, in document
    order and each at most as often as it is a descendant. A disabled
    element is among them only as a link with a target or through a
    [tabindex] attribute other than "-1". *)
Theorem getFocusableElements_sound (page : Page) (container : Elem) :
  sublist (getFocusableElements page container) (descendants page container) /\
  (forall el,
     In el (getFocusableElements page container) <->
     In el (descendants page container) /\
     offsetParent_null (info page el) = false /\
     matches_focusable (info page el) = true) /\
  (forall el,
     In el (getFocusableElements page container) ->
     disabled (info page el) = true ->
     (localName (info page el) = "a"%string /\ has_href (info page el) = true) \/
     (exists t, tabindex (info page el) = Some t /\ t <> "-1"%string)).
Proof.
  split; [|split].
  - unfold getFocusableElements. etransitivity; apply List_filter_sublist.
  - intros el. apply focusable_In.
  - intros el Hin Hdis. apply focusable_In in Hin.
    destruct Hin as (_ & _ & Hmatch).
    unfold matches_focusable in Hmatch. rewrite Hdis in Hmatch.
    cbn [negb] in Hmatch. rewrite !andb_false_r, !orb_false_r in Hmatch.
    apply orb_true_iff in Hmatch. destruct Hmatch as [Ha|Ht].
    + apply andb_true_iff in Ha. destruct Ha as [Ha Hh].
      left. split; [apply String.eqb_eq; exact Ha | exact Hh].
    + destruct (tabindex (info page el)) as [t|]; [|discriminate].
      right. exists t. split; [reflexivity|].
      intros ->. discriminate.
Qed.

Lemma getFocusableElements_sound_witness :
  In 3%positive (getFocusableElements sample_page 1%positive) /\
  In 3%positive (descendants sample_page 1%positive) /\
  offsetParent_null (info sample_page 3%positive) = false /\
  matches_focusable (info sample_page 3%positive) = true.
Proof.
  assert (H : In 3%positive (getFocusableElements sample_page 1%positive))
    by (right; left; reflexivity).
  split; [exact H|].
  apply (proj1 (proj2 (getFocusableElements_sound sample_page 1%positive))
           3%positive).
  exact H.
Defined.

(** *** Helpers on the two functions *)

Lemma openModal_attributes (page : Page) (m : Elem) (s : State) :
  attributes (openModal page (Some m) s)
  = <[(m, "aria-hidden"%string) := "false"%string]>
      (delete (m, "hidden"%string) (attributes s)).
Proof.
  rewrite openModal_unfold.
  destruct (focus_target page m) as [el|]; [|reflexivity].
  cbn [attributes setAttribute].
  rewrite (proj2 (proj2 (proj2 (proj2 (proj2 (proj2
             (focus_fields page el (prepared page m s)))))))).
  reflexivity.
Qed.

Lemma openModal_activeElement (page : Page) (m : Elem) (s : State) :
  activeElement (openModal page (Some m) s) =
    match focus_target page m with
    | Some el =>
        if takes_focus page (removeAttribute m "hidden" s) el
        then Some el else activeElement s
    | None => activeElement s
    end.
Proof.
  rewrite openModal_unfold. cbn [activeElement setAttribute].
  destruct (focus_target page m) as [el|]; [|reflexivity].
  rewrite focus_activeElement, takes_focus_prepared. reflexivity.
Qed.

(** The [hidden] attributes once a modal is shown and hidden again. *)
Lemma hidden_after_open (page : Page) (m : Elem) (s : State) (above : Elem) :
  hasAttribute above "hidden"
    (setAttribute m "hidden" "" (openModal page (Some m) s))
  = hasAttribute above "hidden" (setAttribute m "hidden" "" s).
Proof.
  unfold hasAttribute. cbn [attributes setAttribute].
  rewrite openModal_attributes.
  destruct (decide (above = m)) as [->|Hne].
  - rewrite !lookup_insert_eq. reflexivity.
  - rewrite !lookup_insert_ne by congruence.
    rewrite lookup_delete_ne by congruence. reflexivity.
Qed.

Lemma focus_same (page : Page) (el : Elem) (s : State) :
  activeElement s = Some el -> focus page el s = s.
Proof.
  intros H. unfold focus. destruct (takes_focus page s el); [|reflexivity].
  apply state_ext; try reflexivity. cbn. congruence.
Qed.

Lemma closed_consistent (page : Page) (s : State) :
  closed s -> consistent page s.
Proof.
  intros H. unfold consistent.
  pose proof (proj1 H) as Hc. rewrite Hc. exact H.
Qed.

Lemma openModal_consistent (page : Page) (m : Elem) (s : State) :
  consistent page (openModal page (Some m) s).
Proof.
  destruct (openModal_vars page m s) as (Hc & Hl & Hf & Hx & _ & _).
  unfold consistent. rewrite Hc, openModal_attributes.
  repeat split; try assumption.
  - rewrite lookup_insert_ne by (intros [=]). apply lookup_delete_eq.
  - apply lookup_insert_eq.
Qed.

Lemma closeModal_closed (page : Page) (m : Elem) (s : State) :
  closed (closeModal page (Some m) s).
Proof.
  destruct (closeModal_vars page m s) as (Hc & Hl & Hf & Hx & Hp & _).
  repeat split; assumption.
Qed.

(** A state that differs from a consistent one in the focus and the
    body's overflow only is consistent. *)
Lemma consistent_same_vars (page : Page) (s s' : State) :
  currentModal s' = currentModal s ->
  focusableElements s' = focusableElements s ->
  firstFocusable s' = firstFocusable s ->
  lastFocusable s' = lastFocusable s ->
  previousFocus s' = previousFocus s ->
  attributes s' = attributes s ->
  consistent page s -> consistent page s'.
Proof.
  unfold consistent, closed. intros -> -> -> -> -> ->. tauto.
Qed.

Lemma focus_consistent (page : Page) (el : Elem) (s : State) :
  consistent page s -> consistent page (focus page el s).
Proof.
  destruct (focus_fields page el s) as (H1 & H2 & H3 & H4 & H5 & _ & H7).
  apply consistent_same_vars; assumption.
Qed.

Lemma observer_callback_consistent (page : Page) (modal : Elem)
    (mutations : list string) (s : State) :
  consistent page s -> consistent page (observer_callback modal mutations s).
Proof.
  destruct (observer_callback_fields modal mutations s)
    as (H1 & H2 & H3 & H4 & H5 & _ & H7).
  apply consistent_same_vars; assumption.
Qed.

Lemma consistent_boundaries_ok (page : Page) (s : State) :
  consistent page s -> boundaries_ok s.
Proof.
  unfold consistent, boundaries_ok, closed.
  destruct (currentModal s) as [m|].
  - intros (_ & _ & Hl & Hf & Hx) _. rewrite Hl. split; assumption.
  - intros (_ & Hl & _) Hne. congruence.
Qed.

(** What the Tab handler can do to a state: nothing, or call [focus] on
    an element of the cached list. *)
Lemma handleTabKey_moves (page : Page) (e : KeyboardEvent) (s s' : State)
    (e' : KeyboardEvent) :
  boundaries_ok s ->
  handleTabKey page e s = Done (s', e') ->
  (s' = s /\ e' = e) \/
  (exists el, In el (focusableElements s) /\
              s' = focus page el s /\ e' = preventDefault e).
Proof.
  intros Hok. unfold handleTabKey.
  destruct (focusableElements s) as [|a rest] eqn:El.
  - intros [= <- <-]. left. split; reflexivity.
  - assert (Hne : focusableElements s <> []) by (rewrite El; discriminate).
    destruct (Hok Hne) as [H1 H2]. rewrite El in H1, H2.
    assert (Hends : exists f l, head (a :: rest) = Some f /\ last (a :: rest) = Some l)
      by (apply nonempty_ends; discriminate).
    destruct Hends as (f & l & Hf & Hl).
    rewrite (first_of_head _ _ Hf) in H1. rewrite (last_of_last _ _ Hl) in H2.
    apply head_Some_elem_of, list_elem_of_In in Hf.
    apply last_Some_elem_of, list_elem_of_In in Hl.
    rewrite H1, H2. cbn [focus_ref].
    destruct (shiftKey e).
    + destruct (same_ref (activeElement s) (Ref f)); intros [= <- <-].
      * right. exists l. repeat split. exact Hl.
      * left. split; reflexivity.
    + destruct (same_ref (activeElement s) (Ref l)); intros [= <- <-].
      * right. exists f. repeat split. exact Hf.
      * left. split; reflexivity.
Qed.

Lemma step_consistent (page : Page) (s s' : State) :
  consistent page s -> step page s s' -> consistent page s'.
Proof.
  intros Hok Hstep.
  inversion Hstep as [m s0|m s0|e e' s0 s0' Hk|el s0|modal mutations s0];
    subst.
  - apply openModal_consistent.
  - apply closed_consistent, closeModal_closed.
  - unfold handleModalKeydown in Hk.
    destruct (currentModal s) as [m|] eqn:Hm.
    + destruct (String.eqb (key e) "Escape" || String.eqb (key e) "Esc").
      * injection Hk as <- _. apply closed_consistent, closeModal_closed.
      * destruct (String.eqb (key e) "Tab").
        -- destruct (handleTabKey_moves page e s s' e'
                      (consistent_boundaries_ok page s Hok) Hk)
             as [[-> _]|(el & _ & -> & _)].
           ++ exact Hok.
           ++ apply focus_consistent. exact Hok.
        -- injection Hk as <- _. exact Hok.
    + injection Hk as <- _. exact Hok.
  - apply focus_consistent. exact Hok.
  - apply observer_callback_consistent. exact Hok.
Qed.

(** *** Runs of the module *)

(** X2. Starting from the variables as loaded, after any sequence of calls
    to [openModal] and [closeModal], key presses, focus moves and runs
    of an observer's callback: when a modal is active it has no
    [hidden] attribute, its [aria-hidden] is "false" and the cached list
    and its two ends are those computed for the modal; when none is
    active the list is empty, both ends are null and no element is
    recorded. *)
Theorem consistent_along_runs (page : Page) (s s' : State) :
  closed s -> rtc (step page) s s' -> consistent page s'.
Proof.
  intros Hc Hrun. apply closed_consistent with (page := page) in Hc.
  induction Hrun as [s|s s1 s2 Hstep _ IH]; [exact Hc|].
  apply IH. apply (step_consistent page s s1 Hc Hstep).
Qed.

Lemma consistent_along_runs_witness :
  closed sample_state /\
  consistent sample_page
    (observer_callback 1%positive ["hidden"%string] opened_on_last).
Proof.
  assert (Hc : closed sample_state) by (repeat split).
  split; [exact Hc|].
  apply (consistent_along_runs sample_page sample_state _ Hc).
  eapply rtc_l; [apply (step_open sample_page 1%positive)|].
  eapply rtc_l; [apply (step_focus sample_page 3%positive)|].
  eapply rtc_l;
    [apply (step_observe sample_page 1%positive ["hidden"%string])|].
  apply rtc_refl.
Defined.

(** The scroll lock is no part of what is kept: the first dialog is
    closed and the second opened before the observer of the first is
    told, and its callback releases the lock under the open dialog. *)
Example observer_releases_the_lock :
  let s := observer_callback 1%positive ["hidden"%string]
             (openModal sample_page (Some 7%positive)
                (closeModal sample_page (Some 1%positive) opened_state)) in
  rtc (step sample_page) sample_state s /\
  currentModal s = Some 7%positive /\
  body_overflow s = ""%string.
Proof.
  cbv zeta. split; [|split; vm_compute; reflexivity].
  eapply rtc_l; [apply (step_open sample_page 1%positive)|].
  eapply rtc_l; [apply (step_close sample_page 1%positive)|].
  eapply rtc_l; [apply (step_open sample_page 7%positive)|].
  eapply rtc_l;
    [apply (step_observe sample_page 1%positive ["hidden"%string])|].
  apply rtc_refl.
Qed.

(** X3. While a modal is active, a Tab key press either leaves the focus
    where it is or puts it on an element below the modal that is laid
    out and matches a focusable selector: the handler never sends the
    focus out of the modal. *)
Theorem tab_keeps_focus_inside (page : Page) (s s' : State)
    (e e' : KeyboardEvent) (m : Elem) :
  consistent page s ->
  currentModal s = Some m ->
  key e = "Tab"%string ->
  handleModalKeydown page e s = Done (s', e') ->
  activeElement s' = activeElement s \/
  exists el,
    activeElement s' = Some el /\
    In el (descendants page m) /\
    offsetParent_null (info page el) = false /\
    matches_focusable (info page el) = true.
Proof.
  intros Hok Hm Hkey Hk.
  assert (Hl : focusableElements s = getFocusableElements page m).
  { unfold consistent in Hok. rewrite Hm in Hok. apply Hok. }
  unfold handleModalKeydown in Hk. rewrite Hm, Hkey in Hk. cbn in Hk.
  destruct (handleTabKey_moves page e s s' e'
              (consistent_boundaries_ok page s Hok) Hk)
    as [[-> _]|(el & Hin & -> & _)].
  - left. reflexivity.
  - rewrite focus_activeElement.
    destruct (takes_focus page s el); [|left; reflexivity].
    right. exists el. split; [reflexivity|].
    rewrite Hl in Hin.
    apply focusable_In. exact Hin.
Qed.

Lemma tab_keeps_focus_inside_witness :
  exists el,
    activeElement (focus sample_page 2%positive opened_on_last) = Some el /\
    In el (descendants sample_page 1%positive).
Proof.
  assert (Hok : consistent sample_page opened_on_last)
    by (vm_compute; repeat split).
  destruct (tab_keeps_focus_inside sample_page opened_on_last
              (focus sample_page 2%positive opened_on_last) tab_key
              (preventDefault tab_key) 1%positive
              Hok ltac:(vm_compute; reflexivity) eq_refl
              ltac:(vm_compute; reflexivity))
    as [H|(el & Ha & Hd & _)].
  - vm_compute in H. discriminate H.
  - exists el. split; assumption.
Defined.


(** *** How opening and closing compose *)

(** X4. Opening a hidden modal from the loaded state and closing it again
    gives back the state exactly (variables, focus, overflow and
    attributes) when the element that had the focus takes it again;
    when it does not, all but the focus is back and the focus is where
    [openModal] left it. *)
Theorem close_after_open_is_identity (page : Page) (m p : Elem) (s : State) :
  closed s ->
  activeElement s = Some p ->
  body_overflow s = ""%string ->
  attributes s !! (m, "hidden"%string) = Some ""%string ->
  attributes s !! (m, "aria-hidden"%string) = Some "true"%string ->
  closeModal page (Some m) (openModal page (Some m) s)
  = if takes_focus page s p then s
    else set_activeElement (activeElement (openModal page (Some m) s)) s.
Proof.
  intros (Hc & Hl & Hf & Hx & Hp) Ha Hb Hh Har.
  destruct (closeModal_vars page m (openModal page (Some m) s))
    as (Hc' & Hl' & Hf' & Hx' & Hp' & Hb' & Ha').
  destruct (openModal_vars page m s) as (_ & _ & _ & _ & Hprev & _).
  rewrite Hprev, Ha in Ha'.
  assert (Htakes : takes_focus page
                     (setAttribute m "hidden" "" (openModal page (Some m) s)) p
                   = takes_focus page s p).
  { apply takes_focus_same_hidden. intros above.
    rewrite hidden_after_open. unfold hasAttribute.
    cbn [attributes setAttribute].
    destruct (decide (above = m)) as [->|Hne].
    - rewrite lookup_insert_eq, Hh. reflexivity.
    - rewrite lookup_insert_ne by congruence. reflexivity. }
  rewrite Htakes in Ha'.
  assert (Hattr : attributes (closeModal page (Some m)
                                (openModal page (Some m) s))
                  = attributes s).
  { rewrite closeModal_attributes, openModal_attributes.
    apply map_eq. intros k.
    destruct (decide (k = (m, "aria-hidden"%string))) as [->|Hk1].
    - rewrite lookup_insert_eq. symmetry. exact Har.
    - rewrite lookup_insert_ne by congruence.
      destruct (decide (k = (m, "hidden"%string))) as [->|Hk2].
      + rewrite lookup_insert_eq. symmetry. exact Hh.
      + rewrite !lookup_insert_ne by congruence.
        apply lookup_delete_ne. congruence. }
  destruct (takes_focus page s p);
    apply state_ext; cbn [currentModal focusableElements firstFocusable
                          lastFocusable previousFocus activeElement
                          body_overflow attributes set_activeElement];
    congruence.
Qed.

Lemma close_after_open_is_identity_witness :
  closeModal sample_page (Some 1%positive)
    (openModal sample_page (Some 1%positive) hidden_state)
  = hidden_state.
Proof.
  etransitivity.
  - apply (close_after_open_is_identity sample_page 1%positive 6%positive
             hidden_state); try reflexivity.
    repeat split.
  - vm_compute. reflexivity.
Defined.

(** X5. Opening the same modal twice loses the element that had focus.
    When the close control takes the focus at the first call, the
    second call records the close control; [closeModal] then hides the
    modal and calls [focus] on that control, which lies in the modal
    just hidden and refuses: the call moves no focus. *)
Theorem open_twice_loses_focus (page : Page) (m closeBtn : Elem) (s : State) :
  querySelector_modal_close page m = Some closeBtn ->
  takes_focus page (removeAttribute m "hidden" s) closeBtn = true ->
  let twice := openModal page (Some m) (openModal page (Some m) s) in
  previousFocus twice = Some closeBtn /\
  In closeBtn (descendants page m) /\
  takes_focus page (setAttribute m "hidden" "" twice) closeBtn = false /\
  activeElement (closeModal page (Some m) twice) = activeElement twice /\
  attributes (closeModal page (Some m) twice) !! (m, "hidden"%string)
    = Some ""%string.
Proof.
  intros Hq Htakes twice.
  assert (Ht : focus_target page m = Some closeBtn)
    by (unfold focus_target; rewrite Hq; reflexivity).
  assert (Hp : previousFocus twice = Some closeBtn).
  { subst twice.
    destruct (openModal_vars page m (openModal page (Some m) s))
      as (_ & _ & _ & _ & Hprev & _).
    rewrite Hprev, openModal_activeElement, Ht, Htakes. reflexivity. }
  assert (Hin : In closeBtn (descendants page m)).
  { unfold querySelector_modal_close in Hq.
    apply head_Some_elem_of, list_elem_of_In, filter_In in Hq.
    apply Hq. }
  assert (Hrefuses : takes_focus page (setAttribute m "hidden" "" twice)
                       closeBtn = false).
  { apply (hidden_refuses page _ m closeBtn); [|right; exact Hin].
    unfold hasAttribute. cbn [attributes setAttribute].
    rewrite lookup_insert_eq. reflexivity. }
  split; [exact Hp|]. split; [exact Hin|]. split; [exact Hrefuses|]. split.
  - destruct (closeModal_vars page m twice) as (_ & _ & _ & _ & _ & _ & Ha).
    rewrite Ha, Hp, Hrefuses. reflexivity.
  - rewrite closeModal_attributes.
    rewrite lookup_insert_ne by (intros [=]). apply lookup_insert_eq.
Qed.

Lemma open_twice_loses_focus_witness :
  querySelector_modal_close sample_page 1%positive = Some 2%positive /\
  previousFocus
    (openModal sample_page (Some 1%positive)
       (openModal sample_page (Some 1%positive) sample_state))
  = Some 2%positive.
Proof.
  split; [reflexivity|].
  apply (open_twice_loses_focus sample_page 1%positive 2%positive
           sample_state eq_refl).
  vm_compute. reflexivity.
Defined.

(** X6. Opening a second modal over an active one and pressing Escape hides
    the second only: the first keeps its place on the page, but it is
    no longer the active modal, the scroll lock is released, and a
    further Escape does nothing. The focus goes back to where it was in
    the first modal when that element takes it with the second modal
    hidden. *)
Theorem second_modal_takes_over (page : Page) (first second : Elem)
    (s : State) (e : KeyboardEvent) :
  first <> second ->
  key e = "Escape"%string ->
  let one := openModal page (Some first) s in
  let two := openModal page (Some second) one in
  exists after e',
    handleModalKeydown page e two = Done (after, e') /\
    currentModal after = None /\
    attributes after !! (second, "hidden"%string) = Some ""%string /\
    attributes after !! (first, "hidden"%string) = None /\
    attributes after !! (first, "aria-hidden"%string) = Some "false"%string /\
    body_overflow after = ""%string /\
    (forall x,
       activeElement one = Some x ->
       takes_focus page (setAttribute second "hidden" "" one) x = true ->
       activeElement after = Some x) /\
    handleModalKeydown page e after = Done (after, e).
Proof.
  intros Hne Hkey one two.
  destruct (openModal_vars page second one) as (Hc2 & _ & _ & _ & Hp2 & _).
  fold two in Hc2, Hp2.
  exists (closeModal page (Some second) two), (preventDefault e).
  destruct (closeModal_vars page second two) as (Hc & _ & _ & _ & _ & Hb & Ha).
  split.
  { unfold handleModalKeydown. rewrite Hc2, Hkey. reflexivity. }
  split; [exact Hc|].
  split; [|split; [|split; [|split; [|split]]]].
  - rewrite closeModal_attributes.
    rewrite lookup_insert_ne by (intros [=]). apply lookup_insert_eq.
  - rewrite closeModal_attributes. unfold two. rewrite openModal_attributes.
    unfold one. rewrite openModal_attributes.
    rewrite !lookup_insert_ne by congruence.
    rewrite lookup_delete_ne by congruence.
    rewrite lookup_insert_ne by (intros [=]). apply lookup_delete_eq.
  - rewrite closeModal_attributes. unfold two. rewrite openModal_attributes.
    unfold one. rewrite openModal_attributes.
    rewrite !lookup_insert_ne by congruence.
    rewrite lookup_delete_ne by congruence.
    apply lookup_insert_eq.
  - exact Hb.
  - intros x Hx Htakes. rewrite Ha, Hp2, Hx.
    replace (takes_focus page (setAttribute second "hidden" "" two) x)
      with (takes_focus page (setAttribute second "hidden" "" one) x).
    + rewrite Htakes. reflexivity.
    + apply takes_focus_same_hidden. intros above. unfold two.
      rewrite hidden_after_open. reflexivity.
  - unfold handleModalKeydown. rewrite Hc. reflexivity.
Qed.

Lemma second_modal_takes_over_witness :
  exists after e',
    handleModalKeydown sample_page escape_key nested_state
      = Done (after, e') /\
    currentModal after = None /\
    attributes after !! (1%positive, "hidden"%string) = None /\
    activeElement after = Some 2%positive.
Proof.
  destruct (second_modal_takes_over sample_page 1%positive 7%positive
              sample_state escape_key)
    as (after & e' & Hk & Hc & _ & Hh & _ & _ & Ha & _);
    [discriminate | reflexivity |].
  exists after, e'. split; [exact Hk|]. split; [exact Hc|].
  split; [exact Hh|]. apply Ha; vm_compute; reflexivity.
Defined.

(** The focus does not go back when it was in the modal that is closed:
    the first dialog is shown with the focus on its link, the second
    dialog is opened and then the first once more; Escape hides the
    first dialog, and its link refuses the focus. *)
Example focus_inside_is_not_restored :
  let one := openModal sample_page (Some 7%positive) opened_on_last in
  let two := openModal sample_page (Some 1%positive) one in
  activeElement one = Some 3%positive /\
  takes_focus sample_page (setAttribute 1%positive "hidden" "" one)
    3%positive = false /\
  exists after e',
    handleModalKeydown sample_page escape_key two = Done (after, e') /\
    attributes after !! (1%positive, "hidden"%string) = Some ""%string /\
    activeElement after <> Some 3%positive.
Proof.
  cbv zeta. split; [vm_compute; reflexivity|].
  split; [vm_compute; reflexivity|].
  do 2 eexists. split; [vm_compute; reflexivity|].
  split; [vm_compute; reflexivity|]. cbn. discriminate.
Qed.


(** *** Key presses *)

(** X7. With a single focusable element in the active modal, Tab and
    Shift+Tab on that element prevent the default and leave the focus,
    and the whole state, as they are. *)
Theorem single_focusable_keeps_focus (page : Page) (s : State)
    (e : KeyboardEvent) (m x : Elem) :
  currentModal s = Some m ->
  boundaries_ok s ->
  focusableElements s = [x] ->
  activeElement s = Some x ->
  key e = "Tab"%string ->
  handleModalKeydown page e s = Done (s, preventDefault e).
Proof.
  intros Hm Hok Hl Ha Hkey.
  assert (Hne : focusableElements s <> []) by (rewrite Hl; discriminate).
  destruct (Hok Hne) as [H1 H2]. rewrite Hl in H1, H2. cbn in H1, H2.
  unfold handleModalKeydown. rewrite Hm, Hkey.
  cbn [String.eqb Ascii.eqb Bool.eqb orb].
  unfold handleTabKey. rewrite Hl, H1, H2, Ha. cbn [same_ref focus_ref].
  rewrite Pos.eqb_refl, (focus_same page x s Ha).
  destruct (shiftKey e); reflexivity.
Qed.

Lemma single_focusable_keeps_focus_witness :
  let s := openModal single_page (Some 1%positive) sample_state in
  focusableElements s = [3%positive] /\
  handleModalKeydown single_page shift_tab_key s
    = Done (s, preventDefault shift_tab_key).
Proof.
  split; [vm_compute; reflexivity|].
  apply (single_focusable_keeps_focus single_page _ shift_tab_key
           1%positive 3%positive);
    try (vm_compute; reflexivity).
  intros _. split; vm_compute; reflexivity.
Defined.

(** X8. In every state the module can reach, the keydown handler returns:
    it never calls [focus] on null or undefined, whatever the key. *)
Theorem keydown_never_throws (page : Page) (s : State) (e : KeyboardEvent) :
  reachable page s ->
  exists s' e', handleModalKeydown page e s = Done (s', e').
Proof.
  intros Hr.
  destruct (handleModalKeydown_boundaries_ok page e s
              (reachable_boundaries_ok page s Hr)) as (s' & e' & H & _).
  exists s', e'. exact H.
Qed.

Lemma keydown_never_throws_witness :
  exists s' e',
    handleModalKeydown sample_page tab_key opened_on_last = Done (s', e').
Proof.
  apply (keydown_never_throws sample_page).
  eapply reach_step; [|apply (step_focus sample_page 3%positive)].
  eapply reach_step; [|apply (step_open sample_page 1%positive)].
  apply reach_start. reflexivity.
Defined.

(** Outside these states the call can throw: a cached element with the
    boundaries and the focus all null. *)
Example keydown_throws_when_inconsistent :
  handleModalKeydown sample_page tab_key
    {| currentModal := Some 1%positive; focusableElements := [2%positive];
       firstFocusable := Null; lastFocusable := Null;
       previousFocus := None; activeElement := None;
       body_overflow := ""; attributes := ∅ |}
  = Throws.
Proof. reflexivity. Qed.

(** *** The observer *)

Lemma on_mutation_settled (modal : Elem) (attributeName : string) (s : State) :
  body_overflow s
    = (if hasAttribute modal "hidden" s then "" else "hidden")%string ->
  on_mutation modal attributeName s = s.
Proof.
  intros H. unfold on_mutation.
  destruct (String.eqb attributeName "hidden"); [|reflexivity].
  destruct (hasAttribute modal "hidden" s);
    apply state_ext; try reflexivity; cbn; congruence.
Qed.

Lemma observer_callback_settled (modal : Elem) (mutations : list string)
    (s : State) :
  body_overflow s
    = (if hasAttribute modal "hidden" s then "" else "hidden")%string ->
  observer_callback modal mutations s = s.
Proof.
  intros H. unfold observer_callback.
  induction mutations as [|a rest IH]; [reflexivity|].
  cbn [fold_left]. rewrite (on_mutation_settled modal a s H). exact IH.
Qed.

Lemma on_mutation_hidden (modal : Elem) (s : State) :
  let s' := on_mutation modal "hidden" s in
  body_overflow s'
    = (if hasAttribute modal "hidden" s then "" else "hidden")%string /\
  attributes s' = attributes s /\
  activeElement s' = activeElement s /\
  currentModal s' = currentModal s.
Proof.
  unfold on_mutation. cbn [String.eqb Ascii.eqb Bool.eqb].
  destruct (hasAttribute modal "hidden" s); repeat split.
Qed.

(** X9. The observer agrees with the two functions: its callback changes
    nothing after [openModal] or [closeModal] on the observed modal,
    however many changes it is told of. When the [hidden] attribute is
    set or removed by other means, one record of that change sets the
    overflow lock to match: released when the modal is hidden, locked
    when it is shown. *)
Theorem observer_follows_hidden (page : Page) (modal : Elem) (s : State)
    (mutations : list string) :
  observer_callback modal mutations (openModal page (Some modal) s)
    = openModal page (Some modal) s /\
  observer_callback modal mutations (closeModal page (Some modal) s)
    = closeModal page (Some modal) s /\
  body_overflow
    (observer_callback modal ["hidden"%string]
       (setAttribute modal "hidden" "" s)) = ""%string /\
  body_overflow
    (observer_callback modal ["hidden"%string]
       (removeAttribute modal "hidden" s)) = "hidden"%string.
Proof.
  split; [|split; [|split]].
  - apply observer_callback_settled.
    destruct (openModal_vars page modal s) as (_ & _ & _ & _ & _ & Hb).
    rewrite Hb. unfold hasAttribute. rewrite openModal_attributes.
    rewrite lookup_insert_ne by (intros [=]).
    rewrite lookup_delete_eq. reflexivity.
  - apply observer_callback_settled.
    destruct (closeModal_vars page modal s) as (_ & _ & _ & _ & _ & Hb & _).
    rewrite Hb. unfold hasAttribute. rewrite closeModal_attributes.
    rewrite lookup_insert_ne by (intros [=]).
    rewrite lookup_insert_eq. reflexivity.
  - cbn [observer_callback fold_left].
    destruct (on_mutation_hidden modal (setAttribute modal "hidden" "" s))
      as (Hb & _).
    rewrite Hb. unfold hasAttribute, setAttribute. cbn [attributes].
    rewrite lookup_insert_eq. reflexivity.
  - cbn [observer_callback fold_left].
    destruct (on_mutation_hidden modal (removeAttribute modal "hidden" s))
      as (Hb & _).
    rewrite Hb. unfold hasAttribute, removeAttribute. cbn [attributes].
    rewrite lookup_delete_eq. reflexivity.
Qed.


(** *** From opening to Escape *)

Lemma browse_keeps (page : Page) (s s' : State) :
  boundaries_ok s -> browse page s s' ->
  boundaries_ok s' /\
  currentModal s' = currentModal s /\
  previousFocus s' = previousFocus s /\
  attributes s' = attributes s.
Proof.
  intros Hok Hb.
  assert (Hfocus : forall el,
            boundaries_ok (focus page el s) /\
            currentModal (focus page el s) = currentModal s /\
            previousFocus (focus page el s) = previousFocus s /\
            attributes (focus page el s) = attributes s).
  { intros el. split; [apply focus_boundaries_ok; exact Hok|].
    destruct (focus_fields page el s) as (H1 & _ & _ & _ & H5 & _ & H7).
    repeat split; assumption. }
  inversion Hb as [e e' s0 s0' Hne1 Hne2 Hk|el s0]; subst.
  - unfold handleModalKeydown in Hk.
    destruct (currentModal s) as [m|] eqn:Hm.
    + apply String.eqb_neq in Hne1, Hne2. rewrite Hne1, Hne2 in Hk.
      cbn [orb] in Hk.
      destruct (String.eqb (key e) "Tab").
      * destruct (handleTabKey_moves page e s s' e' Hok Hk)
          as [[-> _]|(el & _ & -> & _)].
        -- split; [exact Hok|]. repeat split. exact Hm.
        -- destruct (Hfocus el) as (A & B & C & D).
           split; [exact A|]. repeat split; congruence.
      * injection Hk as <- _. split; [exact Hok|]. repeat split. exact Hm.
    + injection Hk as <- _. split; [exact Hok|]. repeat split. exact Hm.
  - apply Hfocus.
Qed.

Lemma browsing_keeps (page : Page) (s s' : State) :
  boundaries_ok s -> rtc (browse page) s s' ->
  currentModal s' = currentModal s /\
  previousFocus s' = previousFocus s /\
  attributes s' = attributes s.
Proof.
  intros Hok Hrun.
  induction Hrun as [s|s s1 s2 Hstep _ IH]; [repeat split|].
  destruct (browse_keeps page s s1 Hok Hstep) as (Hok1 & Hc & Hp & Ha).
  destruct (IH Hok1) as (Hc2 & Hp2 & Ha2).
  repeat split; congruence.
Qed.

(** X10. A modal is opened while an element has the focus; then, whatever
    keys other than Escape are pressed and wherever the focus goes,
    Escape closes that modal, and puts the focus back on the element
    that had it before the modal opened when that element takes the
    focus with the modal hidden. *)
Theorem escape_returns_to_the_opener (page : Page) (m opener : Elem)
    (s during : State) (e : KeyboardEvent) :
  activeElement s = Some opener ->
  takes_focus page (setAttribute m "hidden" "" s) opener = true ->
  rtc (browse page) (openModal page (Some m) s) during ->
  key e = "Escape"%string \/ key e = "Esc"%string ->
  exists after e',
    handleModalKeydown page e during = Done (after, e') /\
    activeElement after = Some opener /\
    closed after /\
    defaultPrevented e' = true /\
    attributes after !! (m, "hidden"%string) = Some ""%string.
Proof.
  intros Ha Htakes Hrun Hkey.
  destruct (browsing_keeps page _ _ (openModal_boundaries_ok page m s) Hrun)
    as (Hc & Hp & Hattr).
  destruct (openModal_vars page m s) as (Hc0 & _ & _ & _ & Hp0 & _).
  rewrite Hc0 in Hc. rewrite Hp0, Ha in Hp.
  exists (closeModal page (Some m) during), (preventDefault e).
  split.
  { unfold handleModalKeydown. rewrite Hc.
    destruct Hkey as [-> | ->]; reflexivity. }
  destruct (closeModal_vars page m during) as (_ & _ & _ & _ & _ & _ & Hact).
  rewrite Hp in Hact.
  assert (Hsame : takes_focus page (setAttribute m "hidden" "" during) opener
                  = takes_focus page (setAttribute m "hidden" "" s) opener).
  { apply takes_focus_same_hidden. intros above.
    rewrite <- (hidden_after_open page m s above).
    unfold hasAttribute. cbn [attributes setAttribute]. rewrite Hattr.
    reflexivity. }
  rewrite Hsame, Htakes in Hact.
  split; [exact Hact|]. split; [apply closeModal_closed|].
  split; [reflexivity|].
  rewrite closeModal_attributes.
  rewrite lookup_insert_ne by (intros [=]). apply lookup_insert_eq.
Qed.

Lemma escape_returns_to_the_opener_witness :
  exists after e',
    handleModalKeydown sample_page escape_key
      (focus sample_page 2%positive opened_on_last)
      = Done (after, e') /\
    activeElement after = Some 6%positive.
Proof.
  destruct (escape_returns_to_the_opener sample_page 1%positive 6%positive
              sample_state (focus sample_page 2%positive opened_on_last)
              escape_key eq_refl)
    as (after & e' & Hk & Ha & _).
  - vm_compute. reflexivity.
  - eapply rtc_l; [apply (browse_focus sample_page 3%positive)|].
    eapply rtc_l;
      [apply (browse_keydown sample_page tab_key (preventDefault tab_key)
                opened_on_last (focus sample_page 2%positive opened_on_last));
       [discriminate | discriminate | vm_compute; reflexivity]|].
    apply rtc_refl.
  - left. reflexivity.
  - exists after, e'. split; assumption.
Defined.

End ModalExtra.

(* ===================================================================== *)
(** ** Properties of the focus trap and the tag filter of [js/utils.js] *)
(* ===================================================================== *)

Module UtilsExtra.

Import Modal ModalExt Utils ModalSpec.

(** *** [trapFocus] *)

Lemma ends_together (l : list Elem) :
  (first_of l = Undefined /\ last_of l = Undefined) \/
  (exists f x, first_of l = Ref f /\ last_of l = Ref x /\ In f l /\ In x l).
Proof.
  destruct l as [|a rest]; [left; split; reflexivity|].
  right.
  assert (Hends : exists f x, head (a :: rest) = Some f /\ last (a :: rest) = Some x)
    by (apply nonempty_ends; discriminate).
  destruct Hends as (f & x & Hf & Hx).
  exists f, x.
  split; [apply first_of_head; exact Hf|].
  split; [apply last_of_last; exact Hx|].
  split.
  - apply list_elem_of_In, head_Some_elem_of. exact Hf.
  - apply list_elem_of_In, last_Some_elem_of. exact Hx.
Qed.

(** X17. The listener of [trapFocus] throws only through the callback:
    for every key other than Escape, and on Escape without a callback,
    it returns, also when nothing focusable lies below the element and
    both ends are undefined; on Escape with a callback it returns, the
    event untouched, when the callback returns, and throws when the
    callback throws. *)
Theorem trapFocus_throws_only_with_onEscape (page : Page) (element : Elem)
    (callback : option (State -> outcome State)) (e : KeyboardEvent)
    (s : State) :
  (key e <> "Escape"%string \/ callback = None ->
   exists s' e',
     trap_keydown page (trapFocus page element callback) e s
     = Done (s', e')) /\
  (forall c,
     key e = "Escape"%string -> callback = Some c ->
     trap_keydown page (trapFocus page element callback) e s
     = match c s with
       | Done s1 => Done (s1, e)
       | Throws => Throws
       end).
Proof.
  assert (Htab : forall s0,
            exists s' e',
              trap_tab page (trapFocus page element callback) e s0
              = Done (s', e')).
  { intros s0. unfold trap_tab, trapFocus.
    cbn [firstElement lastElement onEscape].
    destruct (String.eqb (key e) "Tab"); [|eauto].
    destruct (ends_together (querySelectorAll_focusable page element))
      as [[-> ->]|(f & x & -> & -> & _)].
    - assert (H : same_ref (activeElement s0) Undefined = false)
        by (destruct (activeElement s0); reflexivity).
      rewrite H, !andb_false_r. eauto.
    - cbn [focus_ref].
      destruct (shiftKey e && same_ref (activeElement s0) (Ref f)); [eauto|].
      destruct (negb (shiftKey e) && same_ref (activeElement s0) (Ref x));
        eauto. }
  split.
  - intros H. unfold trap_keydown.
    destruct (String.eqb (key e) "Escape") eqn:E; [|apply Htab].
    destruct H as [H| ->]; [|apply Htab].
    apply String.eqb_eq in E. contradiction.
  - intros c Hkey ->. unfold trap_keydown, trap_tab.
    rewrite Hkey. cbn [String.eqb Ascii.eqb Bool.eqb onEscape trapFocus].
    destruct (c s); reflexivity.
Qed.

Lemma trapFocus_throws_only_with_onEscape_witness :
  exists s' e',
    trap_keydown sample_page (trapFocus sample_page 7%positive None)
      tab_key sample_state
    = Done (s', e').
Proof.
  apply (proj1 (trapFocus_throws_only_with_onEscape sample_page 7%positive
                  None tab_key sample_state)).
  right. reflexivity.
Defined.

Lemma filter_all_true {A : Type} (f : A -> bool) (l : list A) :
  (forall x, In x l -> f x = true) -> List.filter f l = l.
Proof.
  induction l as [|a rest IH]; intros H; [reflexivity|].
  cbn [List.filter]. rewrite (H a (or_introl eq_refl)).
  f_equal. apply IH. intros x Hx. apply H. right. exact Hx.
Qed.

(** X18. When every element below a modal that matches the selectors is laid
    out, the listener of [trapFocus] on that modal and the keydown
    handler of the modal module do the same on a Tab key: the same
    state, the same event, in every state where the modal is active. *)
Theorem trapFocus_agrees_with_the_modal (page : Page) (m : Elem)
    (callback : option (State -> outcome State)) (e : KeyboardEvent)
    (s : State) :
  (forall el, In el (descendants page m) ->
              matches_focusable (info page el) = true ->
              offsetParent_null (info page el) = false) ->
  consistent page s ->
  currentModal s = Some m ->
  key e = "Tab"%string ->
  trap_keydown page (trapFocus page m callback) e s
  = handleModalKeydown page e s.
Proof.
  intros Hlaid Hok Hm Hkey.
  assert (HL : getFocusableElements page m = querySelectorAll_focusable page m).
  { unfold getFocusableElements, querySelectorAll_focusable.
    apply filter_all_true. intros el Hin.
    apply filter_In in Hin. destruct Hin as [Hin Hmatch].
    rewrite (Hlaid el Hin Hmatch). reflexivity. }
  unfold consistent in Hok. rewrite Hm in Hok.
  destruct Hok as (_ & _ & Hl & Hf & Hx).
  rewrite HL in Hl, Hf, Hx.
  unfold handleModalKeydown, handleTabKey, trap_keydown, trap_tab, trapFocus.
  cbn [firstElement lastElement onEscape].
  rewrite Hm, Hkey, Hl, Hf, Hx.
  cbn [String.eqb Ascii.eqb Bool.eqb orb].
  destruct (ends_together (querySelectorAll_focusable page m))
    as [[E1 E2]|(f & x & E1 & E2 & Hin & _)].
  - rewrite E1, E2.
    assert (H : same_ref (activeElement s) Undefined = false)
      by (destruct (activeElement s); reflexivity).
    rewrite H, !andb_false_r.
    destruct (querySelectorAll_focusable page m); [reflexivity|].
    destruct (shiftKey e); reflexivity.
  - rewrite E1, E2. cbn [focus_ref].
    destruct (querySelectorAll_focusable page m); [destruct Hin|].
    destruct (shiftKey e); cbn [andb negb];
      [destruct (same_ref (activeElement s) (Ref f))
      |destruct (same_ref (activeElement s) (Ref x))]; reflexivity.
Qed.

Lemma trapFocus_agrees_with_the_modal_witness :
  trap_keydown single_page (trapFocus single_page 1%positive None)
    shift_tab_key
    (focus single_page 3%positive
       (openModal single_page (Some 1%positive) sample_state))
  = handleModalKeydown single_page shift_tab_key
      (focus single_page 3%positive
         (openModal single_page (Some 1%positive) sample_state)).
Proof.
  apply (trapFocus_agrees_with_the_modal single_page 1%positive None).
  - intros el [<-|[<-|[]]] H; reflexivity.
  - vm_compute. repeat split.
  - vm_compute. reflexivity.
  - reflexivity.
Defined.

(** The two differ once a matching element is not laid out: here the
    last match is a hidden button, which [trapFocus] takes for the last
    element and the modal module leaves out. *)
Example trapFocus_counts_hidden_elements :
  let s := focus hidden_last_page 2%positive
             (openModal hidden_last_page (Some 1%positive) sample_state) in
  lastElement (trapFocus hidden_last_page 1%positive None) = Ref 3%positive /\
  lastFocusable s = Ref 2%positive /\
  trap_keydown hidden_last_page (trapFocus hidden_last_page 1%positive None)
    tab_key s
    = Done (s, tab_key) /\
  handleModalKeydown hidden_last_page tab_key s
    = Done (s, preventDefault tab_key).
Proof. vm_compute. repeat split. Qed.

(** A callback that throws makes the listener throw. *)
Example trapFocus_callback_throws :
  trap_keydown sample_page
    (trapFocus sample_page 1%positive (Some (fun _ => Throws)))
    escape_key sample_state
  = Throws.
Proof. reflexivity. Qed.


(** *** [filterProjects] *)

Lemma split_comma_cons (s : string) :
  exists piece pieces, split_comma s = piece :: pieces.
Proof.
  induction s as [|ch rest (p & ps & IH)]; cbn [split_comma]; [eauto|].
  destruct (Ascii.eqb ch comma); [eauto|]. rewrite IH. eauto.
Qed.

Lemma split_comma_pieces (s : string) :
  Forall (fun piece => has_comma piece = false) (split_comma s).
Proof.
  induction s as [|ch rest IH]; cbn [split_comma].
  - constructor; [reflexivity | constructor].
  - destruct (Ascii.eqb ch comma) eqn:E.
    + constructor; [reflexivity | exact IH].
    + destruct (split_comma rest) as [|p ps].
      * constructor; [cbn; rewrite E; reflexivity | constructor].
      * inversion IH as [|? ? Hp Hps]; subst.
        constructor; [cbn; rewrite E; exact Hp | exact Hps].
Qed.

Lemma append_nil_l (s : string) : String.append "" s = s.
Proof. reflexivity. Qed.

Lemma append_cons (ch : Ascii.ascii) (x s : string) :
  String.append (String ch x) s = String ch (String.append x s).
Proof. reflexivity. Qed.

Lemma append_empty (x : string) : String.append x "" = x.
Proof.
  induction x as [|ch rest IH]; [reflexivity|].
  rewrite append_cons, IH. reflexivity.
Qed.

Lemma split_comma_app (x s : string) :
  has_comma x = false ->
  split_comma (String.append x s)
  = match split_comma s with
    | piece :: pieces => String.append x piece :: pieces
    | [] => [x]
    end.
Proof.
  induction x as [|ch rest IH]; intros Hx.
  - rewrite append_nil_l. destruct (split_comma_cons s) as (p & ps & ->).
    reflexivity.
  - cbn [has_comma] in Hx. apply orb_false_iff in Hx.
    destruct Hx as [Hch Hrest].
    rewrite append_cons. cbn [split_comma]. rewrite Hch, (IH Hrest).
    destruct (split_comma_cons s) as (p & ps & ->). reflexivity.
Qed.

(** Splitting what [join] wrote gives the tags back, when there is at
    least one tag and no tag holds a comma. *)
Lemma split_join (tags : list string) :
  tags <> [] ->
  Forall (fun t => has_comma t = false) tags ->
  split_comma (join_comma tags) = tags.
Proof.
  unfold join_comma.
  induction tags as [|t rest IH]; intros Hne Hall; [congruence|].
  inversion Hall as [|? ? Ht Hrest]; subst.
  destruct rest as [|t2 rest].
  - cbn [String.concat].
    rewrite <- (append_empty t) at 1. rewrite (split_comma_app t "" Ht).
    cbn [split_comma]. rewrite append_empty. reflexivity.
  - cbn [String.concat]. rewrite (split_comma_app t _ Ht).
    rewrite (append_cons comma "" _), append_nil_l.
    cbn [split_comma]. rewrite Ascii.eqb_refl, append_empty.
    f_equal. apply IH; [discriminate | exact Hrest].
Qed.

Lemma includes_In (l : list string) (tag : string) :
  includes l tag = true <-> In tag l.
Proof.
  unfold includes. rewrite existsb_exists. split.
  - intros (x & Hin & Heq). apply String.eqb_eq in Heq. subst. exact Hin.
  - intros Hin. exists tag. split; [exact Hin | apply String.eqb_refl].
Qed.

(** *** The loop over the cards *)

Lemma cards_of_and_then (card : Card) (r : filtered) :
  cards_of (and_then card r) = card :: cards_of r.
Proof. destruct r; reflexivity. Qed.

Lemma completed_and_then (card : Card) (r : filtered) :
  completed (and_then card r) = completed r.
Proof. destruct r; reflexivity. Qed.

Lemma completed_cards_of (r : filtered) :
  completed r = true -> r = Completed (cards_of r).
Proof. destruct r; [reflexivity | discriminate]. Qed.

(** One turn of the loop on a card that has [data-tags]. *)
Lemma filterProjects_tagged (tag : string) (card : Card) (rest : list Card)
    (t : string) :
  data_tags card = Some t ->
  filterProjects tag (card :: rest)
  = and_then
      (set_display
         (if String.eqb tag "all" || includes (split_comma t) tag
          then "" else "none") card)
      (filterProjects tag rest).
Proof.
  intros Ht. cbn [filterProjects]. rewrite Ht.
  destruct (String.eqb tag "all"); [reflexivity|].
  destruct (includes (split_comma t) tag); reflexivity.
Qed.

Lemma has_data_tags_Some (card : Card) :
  has_data_tags card = true -> exists t, data_tags card = Some t.
Proof.
  unfold has_data_tags. destruct (data_tags card) as [t|]; [eauto|discriminate].
Qed.

(** With [data-tags] on every card the loop runs to the end. *)
Lemma filterProjects_completes (tag : string) (cards : list Card) :
  Forall (fun card => has_data_tags card = true) cards ->
  completed (filterProjects tag cards) = true.
Proof.
  induction 1 as [|card rest Hc _ IH]; [reflexivity|].
  destruct (has_data_tags_Some card Hc) as (t & Ht).
  rewrite (filterProjects_tagged tag card rest t Ht), completed_and_then.
  exact IH.
Qed.

(** The filter "all" never looks at the tags. *)
Lemma filterProjects_all (cards : list Card) :
  filterProjects "all" cards = Completed (map (set_display "") cards).
Proof.
  induction cards as [|card rest IH]; [reflexivity|].
  cbn [filterProjects String.eqb Ascii.eqb Bool.eqb map]. rewrite IH.
  reflexivity.
Qed.

(** X19. A card whose [data-tags] are its tags joined with commas, with at
    least one tag and no comma inside a tag, is shown by a filter other
    than "all" exactly when the filter is one of its tags, and hidden
    otherwise; its tags are left alone. This holds when every card
    before it has [data-tags], so that the loop reaches it, and whether
    or not a later card makes the loop throw. *)
Theorem filter_shows_the_tagged_cards (tag : string) (cards : list Card)
    (index : nat) (card : Card) (tags : list string) :
  nth_error cards index = Some card ->
  Forall (fun earlier => has_data_tags earlier = true) (take index cards) ->
  data_tags card = Some (join_comma tags) ->
  tags <> [] ->
  Forall (fun t => has_comma t = false) tags ->
  tag <> "all"%string ->
  exists card',
    nth_error (cards_of (filterProjects tag cards)) index = Some card' /\
    data_tags card' = data_tags card /\
    (In tag tags -> display card' = ""%string) /\
    (~ In tag tags -> display card' = "none"%string).
Proof.
  intros Hn Hbefore Hd Hne Hall Htag.
  apply String.eqb_neq in Htag.
  revert index Hn Hbefore.
  induction cards as [|c rest IH]; intros [|i] Hn Hbefore;
    try discriminate Hn.
  - injection Hn as ->.
    rewrite (filterProjects_tagged tag card rest _ Hd), cards_of_and_then.
    rewrite Htag, (split_join tags Hne Hall). cbn [orb nth_error].
    eexists. split; [reflexivity|]. split; [reflexivity|].
    cbn [display set_display].
    destruct (includes tags tag) eqn:E; split; intros H; try reflexivity.
    + exfalso. apply H. apply includes_In. exact E.
    + apply includes_In in H. congruence.
  - cbn [take] in Hbefore. inversion Hbefore as [|? ? Hc Hrest]; subst.
    destruct (has_data_tags_Some c Hc) as (t & Ht).
    rewrite (filterProjects_tagged tag c rest t Ht), cards_of_and_then.
    cbn [nth_error]. apply IH; assumption.
Qed.

Lemma filter_shows_the_tagged_cards_witness :
  exists card',
    nth_error (cards_of (filterProjects "web" sample_cards)) 1 = Some card' /\
    display card' = ""%string.
Proof.
  destruct (filter_shows_the_tagged_cards "web" sample_cards 1
              {| data_tags := Some "b,web"%string; display := "" |}
              ["b"; "web"]%string eq_refl)
    as (card' & Hn & _ & Hshow & _).
  - repeat constructor.
  - reflexivity.
  - discriminate.
  - repeat constructor.
  - discriminate.
  - exists card'. split; [exact Hn|]. apply Hshow. right. left. reflexivity.
Defined.

Lemma eqb_piece_comma (tag piece : string) :
  has_comma tag = true -> has_comma piece = false ->
  String.eqb tag piece = false.
Proof.
  intros Ht Hp. apply String.eqb_neq. intros ->. congruence.
Qed.

Lemma includes_comma (t tag : string) :
  has_comma tag = true -> includes (split_comma t) tag = false.
Proof.
  intros Hc. unfold includes.
  pose proof (split_comma_pieces t) as Hp.
  induction Hp as [|p ps Hp _ IH]; [reflexivity|].
  cbn [existsb]. rewrite (eqb_piece_comma tag p Hc Hp). exact IH.
Qed.

(** X20. The filter keeps no memory and has two blind spots. "all" shows
    every card whatever was hidden before and whatever the cards'
    attributes. When every card has [data-tags], a filter runs to the
    end, what it shows depends on the cards' tags only, so that the
    last filter applied decides, and a filter that holds a comma hides
    every card, because no piece of a split list holds one. *)
Theorem filter_keeps_no_memory (first second : string) (cards : list Card) :
  filterProjects "all" cards = Completed (map (set_display "") cards) /\
  (Forall (fun card => has_data_tags card = true) cards ->
   completed (filterProjects first cards) = true /\
   filterProjects second (cards_of (filterProjects first cards))
     = filterProjects second cards /\
   (has_comma second = true ->
    Forall (fun card => display card = "none"%string)
           (cards_of (filterProjects second cards)))).
Proof.
  split; [apply filterProjects_all|].
  intros Htagged. split; [apply filterProjects_completes; exact Htagged|].
  split.
  - induction Htagged as [|card rest Hc _ IH]; [reflexivity|].
    destruct (has_data_tags_Some card Hc) as (t & Ht).
    rewrite (filterProjects_tagged first card rest t Ht), cards_of_and_then.
    rewrite (filterProjects_tagged second card rest t Ht).
    rewrite (filterProjects_tagged second (set_display _ card) _ t Ht), IH.
    reflexivity.
  - intros Hcomma.
    assert (Hall : String.eqb second "all" = false)
      by (apply String.eqb_neq; intros ->; discriminate).
    induction Htagged as [|card rest Hc _ IH]; [constructor|].
    destruct (has_data_tags_Some card Hc) as (t & Ht).
    rewrite (filterProjects_tagged second card rest t Ht), cards_of_and_then.
    rewrite Hall, (includes_comma t second Hcomma).
    constructor; [reflexivity | exact IH].
Qed.

Lemma filter_keeps_no_memory_witness :
  has_comma "a,b" = true /\
  Forall (fun card => display card = "none"%string)
         (cards_of (filterProjects "a,b" sample_cards)).
Proof.
  split; [reflexivity|].
  apply (proj2 (proj2 (proj2 (filter_keeps_no_memory "all" "a,b" sample_cards)
                         ltac:(repeat constructor)))).
  reflexivity.
Defined.

(** X21. A card without [data-tags] stops a filter other than "all": the
    loop throws a TypeError at the first such card, the cards before
    it are filtered, and that card and the cards after it are left as
    they were. Without such a card the loop runs to the end. *)
Theorem filter_stops_at_untagged_card (tag : string)
    (before : list Card) (card : Card) (after : list Card) :
  tag <> "all"%string ->
  Forall (fun earlier => has_data_tags earlier = true) before ->
  data_tags card = None ->
  exists before',
    filterProjects tag before = Completed before' /\
    filterProjects tag (before ++ card :: after)
      = TypeError (before' ++ card :: after).
Proof.
  intros Htag Hbefore Hcard. apply String.eqb_neq in Htag.
  induction Hbefore as [|c rest Hc _ (before' & IH1 & IH2)].
  - exists []. split; [reflexivity|].
    cbn [app filterProjects]. rewrite Htag, Hcard. reflexivity.
  - destruct (has_data_tags_Some c Hc) as (t & Ht).
    eexists. split.
    + rewrite (filterProjects_tagged tag c rest t Ht), IH1. reflexivity.
    + cbn [app].
      rewrite (filterProjects_tagged tag c (rest ++ card :: after) t Ht), IH2.
      reflexivity.
Qed.

Lemma filter_stops_at_untagged_card_witness :
  filterProjects "b" untagged_cards
  = TypeError [ {| data_tags := Some "a"%string; display := "none" |};
                {| data_tags := None; display := "" |};
                {| data_tags := Some "a,b"%string; display := "none" |} ].
Proof.
  destruct (filter_stops_at_untagged_card "b"
              [ {| data_tags := Some "a"%string; display := "none" |} ]
              {| data_tags := None; display := "" |}
              [ {| data_tags := Some "a,b"%string; display := "none" |} ])
    as (before' & H1 & H2).
  - discriminate.
  - repeat constructor.
  - reflexivity.
  - injection H1 as <-. exact H2.
Defined.

End UtilsExtra.
